(** * delta: lazy loading and change tracking containers

    A shallow embedding of [lazy.go] (package [delta]) and the properties of
    its two containers: the lazily loaded scalar ([LazyScalar], [Scalar]) and
    the lazily loaded, change-tracked collection ([LazySlice], [Slice]).

    Conventions of the embedding:
    - a Go method with a pointer receiver takes the receiver first and
      returns the updated receiver next to its Go results;
    - a Go result pair [(T, error)] is a pair [T * option error], [None]
      standing for the [nil] error;
    - the caller-supplied fetch closure acts on an environment of type [W];
      every invocation is appended to a call log, so that "fetch was (not)
      invoked" is a statement about the log;
    - a [nil] function value is [None]; calling it panics;
    - an [iter.Seq] is the loop it runs, for any consumer: the consumer's
      state is threaded through [yield], whose boolean result stops the
      loop.  A sequence is taken over the store as it is when the sequence
      is made; it has no way to write to the collection. *)

From Stdlib Require Import List String Bool Arith Lia.
From Stdlib Require Import ZArith.
Import ListNotations.

Set Implicit Arguments.

(* ================================================================== *)
(** * Definitions                                                       *)
(* ================================================================== *)

(** ** Go type constraints and zero values *)

(** Go's [comparable]: values that [==] decides. *)
Class comparable (I : Type) := eq_dec : forall x y : I, {x = y} + {x <> y}.

(** Every Go type has a zero value ([var zero T]). *)
Class Zero (T : Type) := zero : T.

(** [type Identifiable[T comparable] interface { ID() T }] *)
Class Identifiable (T I : Type) := ID : T -> I.

(** Go's [error] values: the package's sentinel [ErrNotFound] and the
    errors a fetch closure makes with [errors.New]. *)
Inductive error : Type :=
| ErrNotFound
| errors_New (msg : string).

(** ** Fetch closures, their environment and the call log *)

Record World (W Q : Type) : Type := mkWorld {
  env : W;          (* whatever the closure captured *)
  calls : list Q    (* arguments of the invocations so far, oldest first *)
}.

Inductive outcome (A : Type) : Type :=
| Ret (a : A)
| Panic.
Arguments Panic {A}.

(** Calling a function value [fn] on [q]: a nil function panics. *)
Definition call {W Q R : Type} (fn : option (Q -> W -> R * W)) (q : Q)
    (w : World W Q) : outcome (R * World W Q) :=
  match fn with
  | None => Panic
  | Some f =>
      let (r, e) := f q (env w) in
      Ret (r, {| env := e; calls := calls w ++ [q] |})
  end.

(** ** Package [iter]: push iterators *)

Module iter.

(** [type Seq[V any] func(yield func(V) bool)].  The consumer's state [S]
    is threaded through [yield]; the boolean is [yield]'s result. *)
Definition Seq (V : Type) : Type :=
  forall S : Type, (V -> S -> S * bool) -> S -> S.

(** [type Seq2[K, V any] func(yield func(K, V) bool)] *)
Definition Seq2 (K V : Type) : Type :=
  forall S : Type, (K -> V -> S -> S * bool) -> S -> S.

End iter.

(** [for _, v := range l { if !yield(v) { return } }] *)
Fixpoint range {V S : Type} (l : list V) (yield : V -> S -> S * bool) (s : S) : S :=
  match l with
  | [] => s
  | v :: l' =>
      let (s', more) := yield v s in
      if more then range l' yield s' else s'
  end.

(** [slices.Collect]: appends every yielded value and never stops early. *)
Definition Collect {V : Type} (seq : iter.Seq V) : list V :=
  seq (list V) (fun v acc => (acc ++ [v], true)) [].

(** ** Package [linkedmap]: the insertion-ordered map *)

Module linkedmap.
Section Map.
Context {K V : Type} {cmpK : comparable K}.

(** Modelled from the spec: the insertion-ordered associative store of
    module github.com/quintans/ds, which is not part of this repository.
    Entries are kept oldest first; [Put] on a tracked key replaces the value
    in place (the position of the first put is kept), [Put] on an untracked
    key appends, [Delete] drops the key, [Clear] empties the map, and
    [Values]/[Entries] iterate in that order. *)
Definition Map : Type := list (K * V).

Definition New : Map := [].

Fixpoint Get (key : K) (m : Map) : option V :=
  match m with
  | [] => None
  | (k, v) :: m' => if eq_dec k key then Some v else Get key m'
  end.

Fixpoint Put (key : K) (val : V) (m : Map) : Map :=
  match m with
  | [] => [(key, val)]
  | (k, v) :: m' =>
      if eq_dec k key then (key, val) :: m' else (k, v) :: Put key val m'
  end.

Fixpoint Delete (key : K) (m : Map) : Map :=
  match m with
  | [] => []
  | (k, v) :: m' =>
      if eq_dec k key then Delete key m' else (k, v) :: Delete key m'
  end.

Definition Clear (m : Map) : Map := [].

Definition Keys (m : Map) : list K := map fst m.

Definition Values (m : Map) : iter.Seq V :=
  fun S yield s => range (map snd m) yield s.

Definition Entries (m : Map) : iter.Seq2 K V :=
  fun S yield s => range m (fun e => yield (fst e) (snd e)) s.

(** Representation invariant: a key is stored once. *)
Definition wf (m : Map) : Prop := NoDup (Keys m).

End Map.
Arguments Map : clear implicits.
End linkedmap.

(** ** Scalar *)

(** [type Change[T any] struct { Value T }] *)
Record Change (T : Type) : Type := mkChange { Value : T }.

Module LazyScalar.
Section Defs.
Context {T : Type} {zT : Zero T} {W : Type}.

Record t : Type := mk {
  isSet : bool;
  value : T;
  fn : option (unit -> W -> (T * option error) * W);
  isDirty : bool
}.

Definition Get (v : t) (w : World W unit)
    : outcome ((t * (T * option error)) * World W unit) :=
  if isSet v then Ret ((v, (value v, None)), w)
  else
    match call (fn v) tt w with
    | Panic => Panic
    | Ret ((_, Some err), w') => Ret ((v, (zero, Some err)), w')
    | Ret ((value', None), w') =>
        let v' := {| isSet := true; value := value'; fn := fn v;
                     isDirty := isDirty v |} in
        Ret ((v', (value v', None)), w')
    end.

(** [Set]; the trailing underscore avoids the reserved word. *)
Definition Set_ (v : t) (value' : T) : t :=
  {| isSet := true; value := value'; fn := fn v; isDirty := true |}.

(** [Change() *Change[T]]: [None] is the nil pointer. *)
Definition Change (v : t) : option (Change T) :=
  if isDirty v then Some {| Value := value v |} else None.

End Defs.
Arguments t : clear implicits.
End LazyScalar.

Definition NewLazy {T : Type} {zT : Zero T} {W : Type}
    (fn : option (unit -> W -> (T * option error) * W)) : LazyScalar.t T W :=
  {| LazyScalar.isSet := false; LazyScalar.value := zero;
     LazyScalar.fn := fn; LazyScalar.isDirty := false |}.

Module Scalar.
Section Defs.
Context {T : Type} {W : Type}.

(** [type Scalar[T any] struct { LazyScalar[T] }] *)
Record t : Type := mk { embedded : LazyScalar.t T W }.

Definition Get (e : t) : T := LazyScalar.value (embedded e).

End Defs.
Arguments t : clear implicits.
End Scalar.

Definition New {T W : Type} (value : T) : Scalar.t T W :=
  {| Scalar.embedded :=
       {| LazyScalar.isSet := true; LazyScalar.value := value;
          LazyScalar.fn := None; LazyScalar.isDirty := false |} |}.

(** ** Lazy slice *)

(** [type Status int] with its five constants. *)
Inductive Status : Type := Unchanged | Added | Removed | Modified | Absent.

Definition Status_eqb (a b : Status) : bool :=
  match a, b with
  | Unchanged, Unchanged | Added, Added | Removed, Removed
  | Modified, Modified | Absent, Absent => true
  | _, _ => false
  end.

(** [type Item[T Identifiable[I], I comparable] struct { value T; status Status }] *)
Record Item (T : Type) : Type := mkItem { value : T; status : Status }.

(** [type SliceChange[I comparable, T any] struct { ID I; Value T; Status Status }] *)
Record SliceChange (I T : Type) : Type := mkSliceChange {
  change_ID : I;
  change_Value : T;
  change_Status : Status
}.

(** [type Changes[T, I] struct { Reset bool; Items iter.Seq[SliceChange[I, T]] }] *)
Record Changes (T I : Type) : Type := mkChanges {
  Reset : bool;
  Items : iter.Seq (SliceChange I T)
}.

(** [func filterRemoved(it iter.Seq[Item[T, I]]) iter.Seq[T]]: [continue]
    asks the underlying sequence for its next element, a false [yield] stops
    it. *)
Definition filterRemoved {T : Type} (it : iter.Seq (Item T)) : iter.Seq T :=
  fun S yield s =>
    it S (fun v s0 =>
            if Status_eqb (status v) Removed then (s0, true)
            else yield (value v) s0) s.

Module LazySlice.
Section Defs.
Context {T I : Type} {idT : Identifiable T I} {cmpI : comparable I}
        {zT : Zero T} {zI : Zero I} {W : Type}.

Record t : Type := mk {
  isSet : bool;
  isReset : bool;
  fetched : linkedmap.Map I (Item T);
  fn : option (I -> W -> (list T * option error) * W)
}.

Definition with_fetched (s : t) (m : linkedmap.Map I (Item T)) : t :=
  {| isSet := isSet s; isReset := isReset s; fetched := m; fn := fn s |}.

(** Body of the merge loop of [GetAll], for one fetched value. *)
Definition merge (m : linkedmap.Map I (Item T)) (v : T) : linkedmap.Map I (Item T) :=
  match linkedmap.Get (ID v) m with
  | None => linkedmap.Put (ID v) {| value := v; status := Unchanged |} m
  | Some item =>
      if Status_eqb (status item) Added
      then linkedmap.Put (ID v) {| value := value item; status := Modified |} m
      else m
  end.

Definition GetAll (s : t) (w : World W I)
    : outcome ((t * (option (iter.Seq T) * option error)) * World W I) :=
  if isSet s
  then Ret ((s, (Some (filterRemoved (linkedmap.Values (fetched s))), None)), w)
  else
    match call (fn s) zero w with
    | Panic => Panic
    | Ret ((_, Some err), w') => Ret ((s, (None, Some err)), w')
    | Ret ((values, None), w') =>
        let s' := {| isSet := true; isReset := isReset s;
                     fetched := fold_left merge values (fetched s);
                     fn := fn s |} in
        Ret ((s', (Some (filterRemoved (linkedmap.Values (fetched s'))), None)), w')
    end.

Definition Get (s : t) (id : I) (w : World W I)
    : outcome ((t * (T * option error)) * World W I) :=
  match linkedmap.Get id (fetched s) with
  | Some item =>
      if Status_eqb (status item) Absent || Status_eqb (status item) Removed
      then Ret ((s, (zero, Some ErrNotFound)), w)
      else Ret ((s, (value item, None)), w)
  | None =>
      if isSet s then Ret ((s, (zero, Some ErrNotFound)), w)
      else
        match call (fn s) id w with
        | Panic => Panic
        | Ret ((_, Some err), w') => Ret ((s, (zero, Some err)), w')
        | Ret (([], None), w') =>
            Ret ((with_fetched s
                    (linkedmap.Put id {| value := zero; status := Absent |}
                                   (fetched s)),
                  (zero, Some ErrNotFound)), w')
        | Ret ((v0 :: _, None), w') =>
            Ret ((with_fetched s
                    (linkedmap.Put (ID v0) {| value := v0; status := Unchanged |}
                                   (fetched s)),
                  (v0, None)), w')
        end
  end.

Definition SetAll (s : t) (value : list T) : t :=
  {| isSet := true; isReset := true;
     fetched := fold_left
                  (fun m v => linkedmap.Put (ID v) {| value := v; status := Added |} m)
                  value linkedmap.New;
     fn := fn s |}.

(** [Set]; the trailing underscore avoids the reserved word. *)
Definition Set_ (s : t) (value' : T) : t :=
  match linkedmap.Get (ID value') (fetched s) with
  | Some item =>
      let status' :=
        match status item with
        | Absent | Added => Added
        | Removed | Unchanged => Modified
        | Modified => Modified
        end in
      with_fetched s
        (linkedmap.Put (ID value') {| value := value'; status := status' |} (fetched s))
  | None =>
      with_fetched s
        (linkedmap.Put (ID value') {| value := value'; status := Added |} (fetched s))
  end.

Definition Clear (s : t) : t :=
  {| isSet := true; isReset := true;
     fetched := linkedmap.Clear (fetched s); fn := fn s |}.

Definition Remove (s : t) (id : I) : t * bool :=
  let tombstone (exists_ : bool) :=
    (with_fetched s
       (linkedmap.Put id {| value := zero; status := Removed |} (fetched s)),
     exists_) in
  match linkedmap.Get id (fetched s) with
  | Some item =>
      if Status_eqb (status item) Added
      then (with_fetched s (linkedmap.Delete id (fetched s)), true)
      else tombstone true
  | None => tombstone false
  end.

Definition IsReset (s : t) : bool := isReset s.

Definition changesIterator (s : t) : iter.Seq (SliceChange I T) :=
  let it := linkedmap.Entries (fetched s) in
  fun S yield s0 =>
    it S (fun k v s1 =>
            if Status_eqb (status v) Unchanged then (s1, true)
            else yield {| change_ID := k; change_Value := value v;
                          change_Status := status v |} s1) s0.

Definition Changes (s : t) : Changes T I :=
  {| Reset := isReset s; Items := changesIterator s |}.

(** The mutating and loading methods as data, to speak of arbitrary
    sequences of calls on one collection. *)
Inductive op : Type :=
| CallGetAll
| CallGet (id : I)
| CallSetAll (value : list T)
| CallSet (value' : T)
| CallClear
| CallRemove (id : I).

(** One call; only the receiver and the world are kept. *)
Definition exec (o : op) (s : t) (w : World W I) : outcome (t * World W I) :=
  match o with
  | CallGetAll =>
      match GetAll s w with
      | Ret ((s', _), w') => Ret (s', w')
      | Panic => Panic
      end
  | CallGet id =>
      match Get s id w with
      | Ret ((s', _), w') => Ret (s', w')
      | Panic => Panic
      end
  | CallSetAll value => Ret (SetAll s value, w)
  | CallSet value' => Ret (Set_ s value', w)
  | CallClear => Ret (Clear s, w)
  | CallRemove id => Ret (fst (Remove s id), w)
  end.

(** A collection that can serve any call: loaded, or holding a fetch. *)
Definition loadable (s : t) : Prop := isSet s = true \/ fn s <> None.

Fixpoint run (os : list op) (s : t) (w : World W I) : outcome (t * World W I) :=
  match os with
  | [] => Ret (s, w)
  | o :: os' =>
      match exec o s w with
      | Ret (s', w') => run os' s' w'
      | Panic => Panic
      end
  end.

End Defs.
Arguments t : clear implicits.
End LazySlice.

Definition NewLazySlice {T I W : Type}
    (fn : option (I -> W -> (list T * option error) * W)) : LazySlice.t T I W :=
  {| LazySlice.isSet := false; LazySlice.isReset := false;
     LazySlice.fetched := linkedmap.New; LazySlice.fn := fn |}.

Module Slice.
Section Defs.
Context {T I : Type} {idT : Identifiable T I} {cmpI : comparable I}
        {zT : Zero T} {W : Type}.

(** [type Slice[T, I] struct { LazySlice[T, I] }] *)
Record t : Type := mk { embedded : LazySlice.t T I W }.

Definition GetAll (e : t) : iter.Seq T :=
  filterRemoved (linkedmap.Values (LazySlice.fetched (embedded e))).

Definition Get (e : t) (id : I) : T :=
  match linkedmap.Get id (LazySlice.fetched (embedded e)) with
  | Some item => value item
  | None => zero
  end.

End Defs.
Arguments t : clear implicits.
End Slice.

Definition NewSlice {T I W : Type} {idT : Identifiable T I} {cmpI : comparable I}
    (value : list T) : Slice.t T I W :=
  let fetched :=
    fold_left
      (fun m v => linkedmap.Put (ID v) {| value := v; status := Unchanged |} m)
      value linkedmap.New in
  {| Slice.embedded :=
       {| LazySlice.isSet := true; LazySlice.isReset := false;
          LazySlice.fetched := fetched; LazySlice.fn := None |} |}.

(** ** The collection as its entries, without iterators *)

Section Views.
Context {T I : Type}.

(** Entries that [filterRemoved] lets through. *)
Definition live (it : Item T) : bool := negb (Status_eqb (status it) Removed).

(** Entries that [changesIterator] reports. *)
Definition changed (e : I * Item T) : bool :=
  negb (Status_eqb (status (snd e)) Unchanged).

Definition to_change (e : I * Item T) : SliceChange I T :=
  {| change_ID := fst e; change_Value := value (snd e);
     change_Status := status (snd e) |}.

(** A status under which the item holds a value of the collection. *)
Definition present (it : Item T) : Prop :=
  status it <> Removed /\ status it <> Absent.

Context {idT : Identifiable T I} {cmpI : comparable I} {zT : Zero T}.

(** [v.ID() == k] *)
Definition has_id (k : I) (v : T) : bool :=
  if eq_dec (ID v) k then true else false.

(** Every present value is stored under its own identity. *)
Definition key_inv (m : linkedmap.Map I (Item T)) : Prop :=
  forall k it, In (k, it) m -> present it -> ID (value it) = k.

(** Tombstones hold the zero value. *)
Definition tomb_inv (m : linkedmap.Map I (Item T)) : Prop :=
  forall k it, In (k, it) m ->
    status it = Removed \/ status it = Absent -> value it = zero.

End Views.

(** ** The entity and the fetch closures of the package's tests *)

Record testEntity : Type := mkEntity { id : string; name : string }.

#[export] Instance testEntity_Identifiable : Identifiable testEntity string := id.
#[export] Instance string_comparable : comparable string := string_dec.
#[export] Instance testEntity_Zero : Zero testEntity :=
  {| id := EmptyString; name := EmptyString |}.
#[export] Instance string_Zero : Zero string := EmptyString.
#[export] Instance nat_Zero : Zero nat := 0.

(** [fetcher(ents)] of lazy_test.go; the environment counts the calls. *)
Definition fetcher (ents : list testEntity)
    : string -> nat -> (list testEntity * option error) * nat :=
  fun id callCount =>
    if string_dec id EmptyString then ((ents, None), S callCount)
    else
      match find (fun e => String.eqb (ID e) id) ents with
      | Some e => (([e], None), S callCount)
      | None => (([], Some ErrNotFound), S callCount)
      end.

(** A fetch that finds nothing, as a store that answers the empty list. *)
Definition fetch_nothing : string -> nat -> (list testEntity * option error) * nat :=
  fun _ callCount => (([], None), S callCount).

(** The failing closures of the [LazyError] tests. *)
Definition failing_slice : string -> nat -> (list testEntity * option error) * nat :=
  fun _ callCount => (([], Some (errors_New "loading failed")), S callCount).

Definition failing_scalar : unit -> nat -> (string * option error) * nat :=
  fun _ callCount => ((EmptyString, Some (errors_New "loading failed")), S callCount).

(** The closure of [TestDeltaSlice_Get_LazySuccess]: it answers every
    request with all the entities. *)
Definition fetch_ignoring_id (ents : list testEntity)
    : string -> nat -> (list testEntity * option error) * nat :=
  fun _ callCount => ((ents, None), S callCount).

(** The succeeding closure of [TestDelta_Get_LazySuccess]. *)
Definition loading_scalar : unit -> nat -> (string * option error) * nat :=
  fun _ callCount => (("loaded value"%string, None), S callCount).

Definition world0 {Q : Type} : World nat Q := {| env := 0; calls := [] |}.

Definition e1 : testEntity := {| id := "1"; name := "entity1" |}.
Definition e2 : testEntity := {| id := "2"; name := "entity2" |}.
Definition e2_new : testEntity := {| id := "2"; name := "entity2_new" |}.
Definition e3 : testEntity := {| id := "3"; name := "entity3" |}.

(** The collections the tests build: lazy over the baseline [e1; e2], and
    eager with the same two entities. *)
Definition lazy12 : LazySlice.t testEntity string nat :=
  NewLazySlice (Some (fetcher [e1; e2])).

Definition eager12 : LazySlice.t testEntity string nat :=
  Slice.embedded (NewSlice [e1; e2]).

(** ** Sequences of calls on a scalar *)

Section ScalarCalls.
Context {T : Type} {zT : Zero T} {W : Type}.

Inductive scalar_op : Type :=
| ScalarGet
| ScalarSet (value' : T).

(** One call; only the receiver and the world are kept. *)
Definition scalar_exec (o : scalar_op) (v : LazyScalar.t T W) (w : World W unit)
    : outcome (LazyScalar.t T W * World W unit) :=
  match o with
  | ScalarGet =>
      match LazyScalar.Get v w with
      | Ret ((v', _), w') => Ret (v', w')
      | Panic => Panic
      end
  | ScalarSet value' => Ret (LazyScalar.Set_ v value', w)
  end.

Fixpoint scalar_run (os : list scalar_op) (v : LazyScalar.t T W) (w : World W unit)
    : outcome (LazyScalar.t T W * World W unit) :=
  match os with
  | [] => Ret (v, w)
  | o :: os' =>
      match scalar_exec o v w with
      | Ret (v', w') => scalar_run os' v' w'
      | Panic => Panic
      end
  end.

(** The argument of the last [Set] among the calls, if any. *)
Definition last_set (os : list scalar_op) : option T :=
  fold_left (fun acc o => match o with ScalarSet x => Some x | ScalarGet => acc end)
            os None.

End ScalarCalls.

(** ** What a load does to the store, entry by entry *)

Section LoadViews.
Context {T I : Type} {idT : Identifiable T I} {cmpI : comparable I}.

(** [SetAll] and [Clear]: the calls that replace the whole collection. *)
Definition resets (o : @LazySlice.op T I) : bool :=
  match o with
  | LazySlice.CallSetAll _ | LazySlice.CallClear => true
  | _ => false
  end.

(** The fetched values whose identity is neither among [seen] nor carried
    by an earlier fetched value. *)
Fixpoint fresh (seen : list I) (values : list T) : list T :=
  match values with
  | [] => []
  | v :: values' =>
      if in_dec eq_dec (ID v) seen then fresh seen values'
      else v :: fresh (ID v :: seen) values'
  end.

(** An [Added] entry whose identity was fetched, as [Modified] with its
    own value; any other entry, itself. *)
Definition upgrade (values : list T) (e : I * Item T) : I * Item T :=
  if Status_eqb (status (snd e)) Added && existsb (has_id (fst e)) values
  then (fst e, {| value := value (snd e); status := Modified |})
  else e.

(** The entry the merge makes of a fetched value that is new. *)
Definition unchanged_entry (v : T) : I * Item T :=
  (ID v, {| value := v; status := Unchanged |}).

(** The same on a reported change. *)
Definition upgrade_change (values : list T) (c : SliceChange I T) : SliceChange I T :=
  if Status_eqb (change_Status c) Added && existsb (has_id (change_ID c)) values
  then {| change_ID := change_ID c; change_Value := change_Value c;
          change_Status := Modified |}
  else c.

End LoadViews.

(** ** example/domain: Car *)

(** Go's [int] of [bits] bits (32 or 64, by platform): two's complement
    wrap-around of an integer result. *)
Definition wrap_int (bits : Z) (z : Z) : Z :=
  ((z + 2 ^ (bits - 1)) mod 2 ^ bits - 2 ^ (bits - 1))%Z.

Module Car.
Section Defs.
Context {UUID : Type} {W : Type}.
Variable intSize : Z.

(** [type Car struct { id uuid.UUID; make string; kms *delta.Scalar[int] }] *)
Record t : Type := mk {
  id : UUID;
  make : string;
  kms : Scalar.t Z W
}.

Definition ID (c : t) : UUID := id c.

Definition Make (c : t) : string := make c.

(** [c.kms.Set] is the [Set] of the embedded [LazyScalar]. *)
Definition drive (c : t) (kms' : Z) : t :=
  let currentKms := Scalar.Get (kms c) in
  {| id := id c; make := make c;
     kms := {| Scalar.embedded :=
                 LazyScalar.Set_ (Scalar.embedded (kms c))
                                 (wrap_int intSize (currentKms + kms')) |} |}.

Definition Kms (c : t) : Z := Scalar.Get (kms c).

(** [type CarDelta struct { Kms *delta.Change[int] }] *)
Record CarDelta : Type := mkDelta { delta_Kms : option (Change Z) }.

Definition Delta (c : t) : CarDelta :=
  {| delta_Kms := LazyScalar.Change (Scalar.embedded (kms c)) |}.

End Defs.
Arguments t : clear implicits.
End Car.

(** [NewCar]; [id] is what [uuid.New()] returned. *)
Definition NewCar {UUID W : Type} (id : UUID) (make : string) (kms : Z) : Car.t UUID W :=
  {| Car.id := id; Car.make := make; Car.kms := New kms |}.

Definition HydrateCar {UUID W : Type} (id : UUID) (make : string) (kms : Z)
    : Car.t UUID W :=
  {| Car.id := id; Car.make := make; Car.kms := New kms |}.

(* ================================================================== *)
(** * Properties                                                        *)
(* ================================================================== *)

(** ** Iterators *)

Section RangeFacts.
Context {V U : Type}.

Lemma range_collect (l : list V) (acc : list V) :
  range l (fun v a => (a ++ [v], true)) acc = acc ++ l.
Proof.
  revert acc; induction l as [|v l IH]; intros acc; simpl.
  - now rewrite app_nil_r.
  - rewrite IH, <- app_assoc. reflexivity.
Qed.

(** A loop body that skips the elements failing [keep] and yields the
    image of the others is the plain loop over the filtered, mapped list;
    this covers early termination as well. *)
Lemma range_skip (keep : V -> bool) (f : V -> U) (l : list V)
    (S : Type) (yield : U -> S -> S * bool) (s : S) :
  range l (fun v s0 => if keep v then yield (f v) s0 else (s0, true)) s
  = range (map f (filter keep l)) yield s.
Proof.
  revert s; induction l as [|v l IH]; intros s; simpl; [reflexivity|].
  destruct (keep v); simpl.
  - destruct (yield (f v) s) as [s' more]. destruct more; auto.
  - apply IH.
Qed.

Lemma range_ext (l : list V) (S : Type) (f g : V -> S -> S * bool) (s : S) :
  (forall v s0, f v s0 = g v s0) -> range l f s = range l g s.
Proof.
  intros E. revert s; induction l as [|v l IH]; intros s; simpl; [reflexivity|].
  rewrite E. destruct (g v s) as [s' more]. destruct more; auto.
Qed.

Lemma Collect_range (l : list V) :
  Collect (fun S yield s => range l yield s) = l.
Proof. unfold Collect. apply (range_collect l []). Qed.

End RangeFacts.

Lemma Status_eqb_eq (a b : Status) : Status_eqb a b = true <-> a = b.
Proof. destruct a, b; simpl; split; intros H; try reflexivity; discriminate. Qed.

Lemma Status_eqb_neq (a b : Status) : Status_eqb a b = false <-> a <> b.
Proof.
  destruct a, b; simpl; split; intros H; try reflexivity; try discriminate;
    try (exfalso; apply H; reflexivity).
Qed.

(** ** The insertion-ordered map *)

Section MapFacts.
Context {K V : Type} {cmpK : comparable K}.
Implicit Types (m : linkedmap.Map K V) (k : K) (v : V).

Lemma Get_Put_eq k v m : linkedmap.Get k (linkedmap.Put k v m) = Some v.
Proof.
  induction m as [|[k0 v0] m IH]; simpl.
  - destruct (eq_dec k k); congruence.
  - destruct (eq_dec k0 k) as [E|N]; simpl.
    + destruct (eq_dec k k); congruence.
    + destruct (eq_dec k0 k); congruence.
Qed.

Lemma Get_Put_ne k k' v m :
  k' <> k -> linkedmap.Get k' (linkedmap.Put k v m) = linkedmap.Get k' m.
Proof.
  intros N. induction m as [|[k0 v0] m IH]; simpl.
  - destruct (eq_dec k k'); congruence.
  - destruct (eq_dec k0 k) as [E|N0]; simpl.
    + subst. destruct (eq_dec k k'); congruence.
    + destruct (eq_dec k0 k'); congruence.
Qed.

Lemma Get_Delete_eq k m : linkedmap.Get k (linkedmap.Delete k m) = None.
Proof.
  induction m as [|[k0 v0] m IH]; simpl; [reflexivity|].
  destruct (eq_dec k0 k) as [E|N]; simpl; [assumption|].
  destruct (eq_dec k0 k); congruence.
Qed.

Lemma Get_Delete_ne k k' m :
  k' <> k -> linkedmap.Get k' (linkedmap.Delete k m) = linkedmap.Get k' m.
Proof.
  intros N. induction m as [|[k0 v0] m IH]; simpl; [reflexivity|].
  destruct (eq_dec k0 k) as [E|N0]; simpl.
  - subst. destruct (eq_dec k k'); congruence.
  - destruct (eq_dec k0 k'); congruence.
Qed.

Lemma Get_Some_In k v m : linkedmap.Get k m = Some v -> In (k, v) m.
Proof.
  induction m as [|[k0 v0] m IH]; simpl; [discriminate|].
  destruct (eq_dec k0 k) as [E|N]; intros H.
  - left. congruence.
  - right. auto.
Qed.

Lemma Get_None_Keys k m : linkedmap.Get k m = None <-> ~ In k (linkedmap.Keys m).
Proof.
  induction m as [|[k0 v0] m IH]; simpl.
  - tauto.
  - destruct (eq_dec k0 k) as [E|N]; split; intros H.
    + discriminate.
    + exfalso. apply H. now left.
    + intros [E|HIn]; [contradiction|]. now apply IH.
    + apply IH. intros HIn. apply H. now right.
Qed.

Lemma In_Get k v m : linkedmap.wf m -> In (k, v) m -> linkedmap.Get k m = Some v.
Proof.
  unfold linkedmap.wf. induction m as [|[k0 v0] m IH]; simpl; [tauto|].
  intros Hnd [E|HIn]; inversion Hnd as [|? ? Hnot Hnd']; subst.
  - inversion E; subst. destruct (eq_dec k k); congruence.
  - destruct (eq_dec k0 k) as [E|N]; [|auto].
    subst. exfalso. apply Hnot. apply (in_map fst) in HIn. exact HIn.
Qed.

Lemma Put_untracked k v m :
  linkedmap.Get k m = None -> linkedmap.Put k v m = m ++ [(k, v)].
Proof.
  induction m as [|[k0 v0] m IH]; simpl; [reflexivity|].
  destruct (eq_dec k0 k); [discriminate|]. intros H. now rewrite IH.
Qed.

Lemma Keys_Put_tracked k v v' m :
  linkedmap.Get k m = Some v' -> linkedmap.Keys (linkedmap.Put k v m) = linkedmap.Keys m.
Proof.
  induction m as [|[k0 v0] m IH]; simpl; [discriminate|].
  destruct (eq_dec k0 k) as [E|N]; simpl; intros H.
  - now subst.
  - f_equal. auto.
Qed.

Lemma Keys_Put_untracked k v m :
  linkedmap.Get k m = None ->
  linkedmap.Keys (linkedmap.Put k v m) = linkedmap.Keys m ++ [k].
Proof.
  intros H. rewrite Put_untracked by assumption.
  unfold linkedmap.Keys. now rewrite map_app.
Qed.

Lemma In_Put k v m e :
  In e (linkedmap.Put k v m) -> e = (k, v) \/ In e m.
Proof.
  induction m as [|[k0 v0] m IH]; simpl.
  - intros [E|[]]. now left.
  - destruct (eq_dec k0 k); simpl; intros [E|H]; auto.
    destruct (IH H); auto.
Qed.

Lemma In_Put_same k v m : In (k, v) (linkedmap.Put k v m).
Proof. apply Get_Some_In, Get_Put_eq. Qed.

Lemma In_Delete k m e :
  In e (linkedmap.Delete k m) -> In e m /\ fst e <> k.
Proof.
  induction m as [|[k0 v0] m IH]; simpl; [tauto|].
  destruct (eq_dec k0 k) as [E|N]; simpl.
  - intros H. destruct (IH H). auto.
  - intros [E|H]; [subst; simpl; auto | destruct (IH H); auto].
Qed.

Lemma Delete_untracked k m : linkedmap.Get k m = None -> linkedmap.Delete k m = m.
Proof.
  induction m as [|[k0 v0] m IH]; simpl; [reflexivity|].
  destruct (eq_dec k0 k); [discriminate|]. intros H. now rewrite IH.
Qed.

Lemma Delete_Put k v m :
  linkedmap.Delete k (linkedmap.Put k v m) = linkedmap.Delete k m.
Proof.
  induction m as [|[k0 v0] m IH]; simpl.
  - destruct (eq_dec k k); congruence.
  - destruct (eq_dec k0 k) as [E|N]; simpl.
    + destruct (eq_dec k k); congruence.
    + destruct (eq_dec k0 k); congruence.
Qed.

Lemma wf_New : linkedmap.wf (@linkedmap.New K V).
Proof. constructor. Qed.

Lemma wf_Put k v m : linkedmap.wf m -> linkedmap.wf (linkedmap.Put k v m).
Proof.
  unfold linkedmap.wf. intros Hnd.
  destruct (linkedmap.Get k m) as [v'|] eqn:E.
  - now erewrite Keys_Put_tracked by eassumption.
  - rewrite Keys_Put_untracked by assumption.
    apply NoDup_app; [assumption | repeat constructor; simpl; tauto |].
    intros x Hx [<-|[]]. now apply Get_None_Keys in E.
Qed.

Lemma wf_Delete k m : linkedmap.wf m -> linkedmap.wf (linkedmap.Delete k m).
Proof.
  unfold linkedmap.wf. induction m as [|[k0 v0] m IH]; simpl; [auto|].
  intros Hnd. inversion Hnd as [|? ? Hnot Hnd']; subst.
  destruct (eq_dec k0 k); simpl; [auto|].
  constructor; [|auto].
  intros HIn. apply Hnot. unfold linkedmap.Keys in HIn.
  apply in_map_iff in HIn. destruct HIn as [e [<- He]].
  apply In_Delete in He. apply in_map. tauto.
Qed.

End MapFacts.

(** ** The two iterators of the collection *)

Section IteratorFacts.
Context {T I : Type} {idT : Identifiable T I} {cmpI : comparable I}
        {zT : Zero T} {zI : Zero I} {W : Type}.
Implicit Types (m : linkedmap.Map I (Item T)) (s : LazySlice.t T I W).

(** Whatever the consumer does, [filterRemoved] over the map's values is
    the loop over the values of the live entries, in map order. *)
Lemma filterRemoved_Values m (S : Type) (yield : T -> S -> S * bool) (a : S) :
  filterRemoved (linkedmap.Values m) yield a
  = range (map (@value T) (filter live (map snd m))) yield a.
Proof.
  unfold filterRemoved, linkedmap.Values.
  rewrite <- (range_skip live (@value T)).
  apply range_ext. intros it s0. unfold live.
  destruct (Status_eqb (status it) Removed); reflexivity.
Qed.

Lemma Collect_filterRemoved m :
  Collect (filterRemoved (linkedmap.Values m))
  = map (@value T) (filter live (map snd m)).
Proof.
  unfold Collect. rewrite filterRemoved_Values. apply (range_collect _ []).
Qed.

Lemma changesIterator_range s (S : Type)
    (yield : SliceChange I T -> S -> S * bool) (a : S) :
  LazySlice.changesIterator s yield a
  = range (map to_change (filter changed (LazySlice.fetched s))) yield a.
Proof.
  unfold LazySlice.changesIterator, linkedmap.Entries.
  rewrite <- (range_skip changed to_change).
  apply range_ext. intros e s0. unfold changed, to_change.
  destruct (Status_eqb (status (snd e)) Unchanged); reflexivity.
Qed.

Lemma Collect_changesIterator s :
  Collect (LazySlice.changesIterator s)
  = map to_change (filter changed (LazySlice.fetched s)).
Proof.
  unfold Collect. rewrite changesIterator_range. apply (range_collect _ []).
Qed.

End IteratorFacts.

(** ** Tests of lazy_test.go, replayed on the embedding *)

Example TestDeltaSlice_GetAll_WithPendingAddsAndRemoves :
  let s0 := NewLazySlice (Some (fetcher [e1; e2])) in
  let s2 := LazySlice.Set_ (fst (LazySlice.Remove s0 "1"%string)) e3 in
  match LazySlice.GetAll s2 world0 with
  | Ret ((s3, (Some seq, None)), w) =>
      Collect seq = [e3; e2]
      /\ Reset (LazySlice.Changes s3) = false
      /\ Collect (Items (LazySlice.Changes s3))
         = [ {| change_ID := "1"%string; change_Value := zero; change_Status := Removed |};
             {| change_ID := "3"%string; change_Value := e3; change_Status := Added |} ]
      /\ env w = 1
  | _ => False
  end.
Proof. vm_compute. repeat split. Qed.

Example TestDeltaSlice_Set :
  let s1 := LazySlice.Set_ (NewLazySlice (Some (fetcher [e1; e2]))) e2_new in
  match LazySlice.Get s1 "2"%string world0 with
  | Ret ((s2, (result, None)), w) =>
      result = e2_new /\ env w = 0
      /\ map (@change_Status _ _) (Collect (Items (LazySlice.Changes s2))) = [Added]
      /\ match LazySlice.GetAll s2 w with
         | Ret ((s3, (Some seq, None)), _) =>
             Collect seq = [e2_new; e1]
             /\ map (@change_Status _ _) (Collect (Items (LazySlice.Changes s3)))
                = [Modified]
         | _ => False
         end
  | _ => False
  end.
Proof. vm_compute. repeat split. Qed.

Example TestDeltaSlice_GetAll_WithSamePendingAddsAndRemoves :
  let s0 := NewLazySlice (Some (fetcher [e1])) in
  let s2 := fst (LazySlice.Remove (LazySlice.Set_ s0 e2) "2"%string) in
  match LazySlice.GetAll s2 world0 with
  | Ret ((s3, (Some seq, None)), _) =>
      Collect seq = [e1] /\ Collect (Items (LazySlice.Changes s3)) = []
  | _ => False
  end.
Proof. vm_compute. repeat split. Qed.

Example TestDeltaSlice_GetAll_WithSamePendingRemovesAndAdds :
  let s2 := LazySlice.Set_ (fst (LazySlice.Remove lazy12 "2"%string)) e2_new in
  match LazySlice.GetAll s2 world0 with
  | Ret ((s3, (Some seq, None)), _) =>
      Collect seq = [e2_new; e1]
      /\ Collect (Items (LazySlice.Changes s3))
         = [ {| change_ID := "2"%string; change_Value := e2_new;
                change_Status := Modified |} ]
  | _ => False
  end.
Proof. vm_compute. repeat split. Qed.

Example TestDeltaSlice_Get_WithPendingRemoves :
  let s1 := fst (LazySlice.Remove lazy12 "1"%string) in
  match LazySlice.Get s1 "1"%string world0 with
  | Ret ((s2, (_, Some ErrNotFound)), w) =>
      env w = 0
      /\ match LazySlice.Get s2 "2"%string w with
         | Ret ((_, (result2, None)), w') => result2 = e2 /\ calls w' = ["2"%string]
         | _ => False
         end
  | _ => False
  end.
Proof. vm_compute. repeat split. Qed.

Example TestDeltaSlice_GetAll_LazySuccess :
  match LazySlice.GetAll lazy12 world0 with
  | Ret ((s1, (Some seq, None)), w) =>
      Collect seq = [e1; e2] /\ env w = 1
      /\ match LazySlice.GetAll s1 w with
         | Ret ((_, (Some seq2, None)), w') => Collect seq2 = [e1; e2] /\ env w' = 1
         | _ => False
         end
  | _ => False
  end.
Proof. vm_compute. repeat split. Qed.

Example TestDeltaSlice_SetAll :
  let s1 := LazySlice.SetAll lazy12 [e1; e2] in
  LazySlice.IsReset s1 = true
  /\ LazySlice.Get s1 "1"%string world0 = Ret ((s1, (e1, None)), world0)
  /\ Reset (LazySlice.Changes s1) = true
  /\ Collect (Items (LazySlice.Changes s1))
     = [ {| change_ID := "1"%string; change_Value := e1; change_Status := Added |};
         {| change_ID := "2"%string; change_Value := e2; change_Status := Added |} ].
Proof. vm_compute. repeat split. Qed.

Example TestDeltaSlice_Get_Eager :
  Slice.Get (W := nat) (NewSlice [e1; e2]) "1"%string = e1
  /\ Collect (Slice.GetAll (W := nat) (NewSlice [e1; e2])) = [e1; e2].
Proof. vm_compute. repeat split. Qed.

Example TestDelta_Set_Eager :
  LazyScalar.Change (Scalar.embedded (New (W := nat) 1)) = None
  /\ LazyScalar.Change (LazyScalar.Set_ (Scalar.embedded (New (W := nat) 1)) 2)
     = Some {| Value := 2 |}
  /\ Scalar.Get (New (W := nat) 1) = 1.
Proof. vm_compute. repeat split. Qed.

Example TestDelta_Get_LazyError :
  let scalar := NewLazy (Some failing_scalar) in
  match LazyScalar.Get scalar world0 with
  | Ret ((scalar', (result, Some _)), w) =>
      result = EmptyString /\ env w = 1
      /\ match LazyScalar.Get scalar' w with
         | Ret ((_, (_, Some _)), w') => env w' = 2
         | _ => False
         end
  | _ => False
  end.
Proof. vm_compute. repeat split. Qed.

(** ** The collection *)

Section SliceFacts.
Context {T I : Type} {idT : Identifiable T I} {cmpI : comparable I}
        {zT : Zero T} {zI : Zero I} {W : Type}.
Implicit Types (m : linkedmap.Map I (Item T)) (s : LazySlice.t T I W)
               (v x : T) (k id : I) (w : World W I).

(** *** Entry-wise invariants under the map operations *)

Lemma key_inv_New : key_inv (@linkedmap.New I (Item T)).
Proof. intros k it []. Qed.

Lemma key_inv_Put k it m :
  key_inv m -> (present it -> ID (value it) = k) -> key_inv (linkedmap.Put k it m).
Proof.
  intros Hm Hit k' it' HIn. apply In_Put in HIn. destruct HIn as [E|HIn].
  - inversion E; subst. exact Hit.
  - now apply Hm.
Qed.

Lemma key_inv_Delete k m : key_inv m -> key_inv (linkedmap.Delete k m).
Proof. intros Hm k' it' HIn. apply In_Delete in HIn. apply Hm. tauto. Qed.

Lemma tomb_inv_New : tomb_inv (@linkedmap.New I (Item T)).
Proof. intros k it []. Qed.

Lemma tomb_inv_Put k it m :
  tomb_inv m ->
  (status it = Removed \/ status it = Absent -> value it = zero) ->
  tomb_inv (linkedmap.Put k it m).
Proof.
  intros Hm Hit k' it' HIn. apply In_Put in HIn. destruct HIn as [E|HIn].
  - inversion E; subst. exact Hit.
  - now apply (Hm k').
Qed.

Lemma tomb_inv_Delete k m : tomb_inv m -> tomb_inv (linkedmap.Delete k m).
Proof. intros Hm k' it' HIn. apply In_Delete in HIn. apply (Hm k'). tauto. Qed.

(** Closes the side condition of [key_inv_Put] / [tomb_inv_Put] for an
    item whose status is a constant. *)
Ltac item_side :=
  unfold present; simpl; intros;
  repeat match goal with
         | H : _ /\ _ |- _ => destruct H
         | H : _ \/ _ |- _ => destruct H
         end;
  try reflexivity; try congruence; try discriminate.

(** *** The merge of [GetAll] *)

Lemma Get_merge_eq m v :
  linkedmap.Get (ID v) (LazySlice.merge m v)
  = match linkedmap.Get (ID v) m with
    | None => Some {| value := v; status := Unchanged |}
    | Some it =>
        if Status_eqb (status it) Added
        then Some {| value := value it; status := Modified |}
        else Some it
    end.
Proof.
  unfold LazySlice.merge.
  destruct (linkedmap.Get (ID v) m) as [it|] eqn:E.
  - destruct (Status_eqb (status it) Added); [apply Get_Put_eq | exact E].
  - apply Get_Put_eq.
Qed.

Lemma Get_merge_ne m v k :
  k <> ID v -> linkedmap.Get k (LazySlice.merge m v) = linkedmap.Get k m.
Proof.
  intros N. unfold LazySlice.merge.
  destruct (linkedmap.Get (ID v) m) as [it|].
  - destruct (Status_eqb (status it) Added); [now apply Get_Put_ne | reflexivity].
  - now apply Get_Put_ne.
Qed.

(** What the whole merge leaves under a key, from what was there before
    and the first fetched value carrying that key. *)
Lemma Get_fold_merge (values : list T) m k :
  linkedmap.Get k (fold_left LazySlice.merge values m)
  = match linkedmap.Get k m, find (has_id k) values with
    | Some it, Some _ =>
        if Status_eqb (status it) Added
        then Some {| value := value it; status := Modified |}
        else Some it
    | Some it, None => Some it
    | None, Some v0 => Some {| value := v0; status := Unchanged |}
    | None, None => None
    end.
Proof.
  revert m. induction values as [|v values IH]; intros m; simpl.
  - destruct (linkedmap.Get k m); reflexivity.
  - rewrite IH. destruct (has_id k v) eqn:Hid; unfold has_id in Hid;
      destruct (eq_dec (ID v) k) as [E|N]; try discriminate.
    + subst k. rewrite Get_merge_eq.
      destruct (linkedmap.Get (ID v) m) as [it|].
      * destruct (Status_eqb (status it) Added) eqn:A; simpl.
        -- destruct (find (has_id (ID v)) values); reflexivity.
        -- rewrite A. destruct (find (has_id (ID v)) values); reflexivity.
      * simpl. destruct (find (has_id (ID v)) values); reflexivity.
    + rewrite Get_merge_ne by congruence. reflexivity.
Qed.

Lemma key_inv_merge m v : key_inv m -> key_inv (LazySlice.merge m v).
Proof.
  intros Hm. unfold LazySlice.merge.
  destruct (linkedmap.Get (ID v) m) as [it|] eqn:E.
  - destruct (Status_eqb (status it) Added) eqn:A; [|assumption].
    apply key_inv_Put; [assumption|]. simpl. intros _.
    apply Hm; [now apply Get_Some_In|].
    apply Status_eqb_eq in A. unfold present. rewrite A. split; discriminate.
  - apply key_inv_Put; [assumption | reflexivity].
Qed.

Lemma key_inv_fold_merge (values : list T) m :
  key_inv m -> key_inv (fold_left LazySlice.merge values m).
Proof.
  revert m. induction values as [|v values IH]; intros m Hm; simpl; [assumption|].
  apply IH. now apply key_inv_merge.
Qed.

Lemma tomb_inv_merge m v : tomb_inv m -> tomb_inv (LazySlice.merge m v).
Proof.
  intros Hm. unfold LazySlice.merge.
  destruct (linkedmap.Get (ID v) m) as [it|] eqn:E.
  - destruct (Status_eqb (status it) Added) eqn:A; [|assumption].
    apply tomb_inv_Put; [assumption | item_side].
  - apply tomb_inv_Put; [assumption | item_side].
Qed.

Lemma tomb_inv_fold_merge (values : list T) m :
  tomb_inv m -> tomb_inv (fold_left LazySlice.merge values m).
Proof.
  revert m. induction values as [|v values IH]; intros m Hm; simpl; [assumption|].
  apply IH. now apply tomb_inv_merge.
Qed.

Lemma wf_merge m v : linkedmap.wf m -> linkedmap.wf (LazySlice.merge m v).
Proof.
  intros Hm. unfold LazySlice.merge.
  destruct (linkedmap.Get (ID v) m) as [it|].
  - destruct (Status_eqb (status it) Added); [now apply wf_Put | assumption].
  - now apply wf_Put.
Qed.

Lemma wf_fold_merge (values : list T) m :
  linkedmap.wf m -> linkedmap.wf (fold_left LazySlice.merge values m).
Proof.
  revert m. induction values as [|v values IH]; intros m Hm; simpl; [assumption|].
  apply IH. now apply wf_merge.
Qed.

(** *** Set and Remove *)

Lemma fetched_Set_ s v :
  LazySlice.fetched (LazySlice.Set_ s v)
  = linkedmap.Put (ID v)
      {| value := v;
         status := match linkedmap.Get (ID v) (LazySlice.fetched s) with
                   | None => Added
                   | Some it =>
                       match status it with
                       | Absent | Added => Added
                       | Removed | Unchanged | Modified => Modified
                       end
                   end |}
      (LazySlice.fetched s).
Proof.
  unfold LazySlice.Set_.
  destruct (linkedmap.Get (ID v) (LazySlice.fetched s)) as [it|]; [|reflexivity].
  destruct (status it); reflexivity.
Qed.

Lemma Set_flags s v :
  LazySlice.isSet (LazySlice.Set_ s v) = LazySlice.isSet s
  /\ LazySlice.isReset (LazySlice.Set_ s v) = LazySlice.isReset s
  /\ LazySlice.fn (LazySlice.Set_ s v) = LazySlice.fn s.
Proof.
  unfold LazySlice.Set_.
  destruct (linkedmap.Get (ID v) (LazySlice.fetched s)); repeat split.
Qed.

Lemma Remove_flags s id :
  LazySlice.isSet (fst (LazySlice.Remove s id)) = LazySlice.isSet s
  /\ LazySlice.isReset (fst (LazySlice.Remove s id)) = LazySlice.isReset s
  /\ LazySlice.fn (fst (LazySlice.Remove s id)) = LazySlice.fn s.
Proof.
  unfold LazySlice.Remove.
  destruct (linkedmap.Get id (LazySlice.fetched s)) as [it|]; [|repeat split].
  destruct (Status_eqb (status it) Added); repeat split.
Qed.

(** The store after [Remove]: the entry is dropped when it was [Added],
    otherwise a zero-valued [Removed] item is put under the key. *)
Lemma fetched_Remove s id :
  LazySlice.fetched (fst (LazySlice.Remove s id))
  = match linkedmap.Get id (LazySlice.fetched s) with
    | Some it =>
        if Status_eqb (status it) Added
        then linkedmap.Delete id (LazySlice.fetched s)
        else linkedmap.Put id {| value := zero; status := Removed |}
                           (LazySlice.fetched s)
    | None => linkedmap.Put id {| value := zero; status := Removed |}
                            (LazySlice.fetched s)
    end.
Proof.
  unfold LazySlice.Remove.
  destruct (linkedmap.Get id (LazySlice.fetched s)) as [it|]; [|reflexivity].
  destruct (Status_eqb (status it) Added); reflexivity.
Qed.

(** C1. [Set(v)] stores [v] under [v.ID()] with the status the prior status
    dictates: untracked, [Absent] or [Added] give [Added]; [Unchanged] or
    [Removed] give [Modified]; [Modified] stays [Modified]; no other key and
    no flag changes. [Remove(id)] drops the entry when it was [Added] and in
    every other case, the untracked one included, leaves a [Removed]
    tombstone; its result tells whether [id] was tracked before. *)
Theorem Set_Remove_transition_table s :
  (forall v,
     linkedmap.Get (ID v) (LazySlice.fetched (LazySlice.Set_ s v))
     = Some {| value := v;
               status := match option_map (@status T)
                                 (linkedmap.Get (ID v) (LazySlice.fetched s)) with
                         | None => Added
                         | Some Absent => Added
                         | Some Added => Added
                         | Some Unchanged => Modified
                         | Some Removed => Modified
                         | Some Modified => Modified
                         end |}
     /\ (forall k, k <> ID v ->
           linkedmap.Get k (LazySlice.fetched (LazySlice.Set_ s v))
           = linkedmap.Get k (LazySlice.fetched s)))
  /\ (forall id,
        snd (LazySlice.Remove s id)
        = match linkedmap.Get id (LazySlice.fetched s) with
          | Some _ => true
          | None => false
          end
        /\ linkedmap.Get id (LazySlice.fetched (fst (LazySlice.Remove s id)))
           = match option_map (@status T)
                   (linkedmap.Get id (LazySlice.fetched s)) with
             | Some Added => None
             | Some Unchanged | Some Removed | Some Modified | Some Absent
             | None => Some {| value := zero; status := Removed |}
             end
        /\ (option_map (@status T) (linkedmap.Get id (LazySlice.fetched s))
            = Some Added ->
            ~ In id (linkedmap.Keys (LazySlice.fetched (fst (LazySlice.Remove s id)))))
        /\ (forall k, k <> id ->
              linkedmap.Get k (LazySlice.fetched (fst (LazySlice.Remove s id)))
              = linkedmap.Get k (LazySlice.fetched s))).
Proof.
  split.
  - intros v. rewrite fetched_Set_. split.
    + rewrite Get_Put_eq.
      destruct (linkedmap.Get (ID v) (LazySlice.fetched s)) as [it|]; simpl;
        [destruct (status it)|]; reflexivity.
    + intros k N. now apply Get_Put_ne.
  - intros id. rewrite fetched_Remove. unfold LazySlice.Remove.
    destruct (linkedmap.Get id (LazySlice.fetched s)) as [it|] eqn:E; simpl.
    + destruct (status it) eqn:St; simpl;
        (split; [reflexivity|]);
        (split; [first [apply Get_Put_eq | apply Get_Delete_eq]|]);
        (split; [intros H; try discriminate; apply Get_None_Keys, Get_Delete_eq|]);
        intros k N; first [now apply Get_Put_ne | now apply Get_Delete_ne].
    + split; [reflexivity|]. split; [apply Get_Put_eq|].
      split; [discriminate|]. intros k N. now apply Get_Put_ne.
Qed.

Lemma In_Collect_Changes s c :
  In c (Collect (Items (LazySlice.Changes s)))
  <-> exists k it, In (k, it) (LazySlice.fetched s)
                   /\ status it <> Unchanged
                   /\ c = {| change_ID := k; change_Value := value it;
                             change_Status := status it |}.
Proof.
  simpl. rewrite Collect_changesIterator, in_map_iff. split.
  - intros [[k it] [<- HIn]]. apply filter_In in HIn. destruct HIn as [HIn Hc].
    exists k, it. repeat split; auto.
    unfold changed in Hc. simpl in Hc. apply negb_true_iff in Hc.
    now apply Status_eqb_neq.
  - intros [k [it [HIn [Hs ->]]]]. exists (k, it). split; [reflexivity|].
    apply filter_In. split; [assumption|].
    unfold changed. simpl. apply negb_true_iff. now apply Status_eqb_neq.
Qed.

Lemma In_Collect_live m v :
  In v (Collect (filterRemoved (linkedmap.Values m)))
  <-> exists k it, In (k, it) m /\ status it <> Removed /\ value it = v.
Proof.
  rewrite Collect_filterRemoved, in_map_iff. split.
  - intros [it [<- HIn]]. apply filter_In in HIn. destruct HIn as [HIn Hl].
    apply in_map_iff in HIn. destruct HIn as [[k it'] [E HIn]]. simpl in E. subst it'.
    exists k, it. repeat split; auto.
    unfold live in Hl. apply negb_true_iff in Hl. now apply Status_eqb_neq.
  - intros [k [it [HIn [Hs <-]]]]. exists it. split; [reflexivity|].
    apply filter_In. split.
    + apply in_map_iff. now exists (k, it).
    + unfold live. apply negb_true_iff. now apply Status_eqb_neq.
Qed.

(** C10. [Remove(id)] on an identity that is untracked or tracked with a
    status other than [Added] forgets the stored value: the tombstone under
    [id] holds the zero value, [Changes()] reports [id] with status
    [Removed] and the zero value, and (keys being stored once) reports
    nothing else for [id].  The [Absent] tombstone that [Get] records after
    an empty fetch holds the zero value as well. *)
Theorem Remove_tombstone_is_zero s id :
  option_map (@status T) (linkedmap.Get id (LazySlice.fetched s)) <> Some Added ->
  let s' := fst (LazySlice.Remove s id) in
  linkedmap.Get id (LazySlice.fetched s')
  = Some {| value := zero; status := Removed |}
  /\ In {| change_ID := id; change_Value := zero; change_Status := Removed |}
        (Collect (Items (LazySlice.Changes s')))
  /\ (linkedmap.wf (LazySlice.fetched s) ->
      forall c, In c (Collect (Items (LazySlice.Changes s'))) ->
                change_ID c = id ->
                change_Value c = zero /\ change_Status c = Removed)
  /\ (forall w f (env1 : W) values,
        linkedmap.Get id (LazySlice.fetched s) = None ->
        LazySlice.isSet s = false ->
        LazySlice.fn s = Some f ->
        f id (env w) = ((values, None), env1) ->
        values = [] ->
        exists s2 w2,
          LazySlice.Get s id w = Ret ((s2, (zero, Some ErrNotFound)), w2)
          /\ linkedmap.Get id (LazySlice.fetched s2)
             = Some {| value := zero; status := Absent |}
          /\ In {| change_ID := id; change_Value := zero; change_Status := Absent |}
                (Collect (Items (LazySlice.Changes s2)))).
Proof.
  intros Hprior s'.
  assert (Hf : LazySlice.fetched s'
               = linkedmap.Put id {| value := zero; status := Removed |}
                   (LazySlice.fetched s)).
  { unfold s'. rewrite fetched_Remove.
    destruct (linkedmap.Get id (LazySlice.fetched s)) as [it|]; [|reflexivity].
    destruct (Status_eqb (status it) Added) eqn:A; [|reflexivity].
    apply Status_eqb_eq in A. simpl in Hprior. congruence. }
  assert (Hg : linkedmap.Get id (LazySlice.fetched s')
               = Some {| value := zero; status := Removed |})
    by (rewrite Hf; apply Get_Put_eq).
  split; [exact Hg|]. split; [|split].
  - apply In_Collect_Changes. exists id, {| value := zero; status := Removed |}.
    split; [now apply Get_Some_In|]. split; [discriminate | reflexivity].
  - intros Hwf c Hc Hid. apply In_Collect_Changes in Hc.
    destruct Hc as [k [it [HIn [_ ->]]]]. simpl in Hid. subst k.
    apply In_Get in HIn; [|rewrite Hf; now apply wf_Put].
    rewrite Hg in HIn. inversion HIn; subst. simpl. auto.
  - intros w f env1 values Hnone Hunset Hfn Hcall ->.
    unfold LazySlice.Get, call. rewrite Hnone, Hunset, Hfn, Hcall.
    eexists _, _. split; [reflexivity|]. simpl. split; [apply Get_Put_eq|].
    match goal with
    | |- In _ (Collect (LazySlice.changesIterator ?s2)) =>
        apply (proj2 (In_Collect_Changes s2 _))
    end.
    exists id, {| value := zero; status := Absent |}.
    split; [apply In_Put_same|]. split; [discriminate | reflexivity].
Qed.

(** A key whose entries are all [Unchanged] has only [Unchanged] entries
    after the merge of [GetAll]. *)
Lemma merge_keeps_unchanged_at k (values : list T) m :
  (forall it, In (k, it) m -> status it = Unchanged) ->
  forall it, In (k, it) (fold_left LazySlice.merge values m) -> status it = Unchanged.
Proof.
  revert m. induction values as [|v values IH]; intros m Hm; simpl; [exact Hm|].
  apply IH. intros it HIn. unfold LazySlice.merge in HIn.
  destruct (linkedmap.Get (ID v) m) as [it0|] eqn:E.
  - destruct (Status_eqb (status it0) Added) eqn:A; [|now apply Hm].
    apply In_Put in HIn. destruct HIn as [Heq|HIn]; [|now apply Hm].
    inversion Heq; subst. apply Get_Some_In in E. apply Hm in E.
    apply Status_eqb_eq in A. congruence.
  - apply In_Put in HIn. destruct HIn as [Heq|HIn]; [|now apply Hm].
    inversion Heq; subst. reflexivity.
Qed.

(** C6, as amended.  When [x.ID()] has status [Added] after [Set(x)] (it
    was untracked, [Absent] or [Added] before), [Set(x)] followed by
    [Remove(x.ID())] reports the identity as tracked and leaves no entry for
    it: the store is the one before with that key deleted (the very same
    store when the identity was untracked), so no entry feeds the live view
    or the changeset under that identity, and no present value of the live
    view carries it.  On a loaded collection that live view is what
    [GetAll] returns.  On a collection that is not loaded, the next
    successful [GetAll] merges the fetched baseline: the identity is tracked
    afterwards exactly when a fetched value carries it, then as [Unchanged]
    with the first such value, and the changeset still has no item for
    it. *)
Theorem Set_then_Remove_cancels s x it :
  linkedmap.Get (ID x) (LazySlice.fetched (LazySlice.Set_ s x)) = Some it ->
  status it = Added ->
  let r := LazySlice.Remove (LazySlice.Set_ s x) (ID x) in
  snd r = true
  /\ LazySlice.fetched (fst r) = linkedmap.Delete (ID x) (LazySlice.fetched s)
  /\ (linkedmap.Get (ID x) (LazySlice.fetched s) = None -> fst r = s)
  /\ linkedmap.Get (ID x) (LazySlice.fetched (fst r)) = None
  /\ ~ In (ID x) (linkedmap.Keys (LazySlice.fetched (fst r)))
  /\ (forall c, In c (Collect (Items (LazySlice.Changes (fst r)))) ->
                change_ID c <> ID x)
  /\ (forall v, In v (Collect (filterRemoved (linkedmap.Values (LazySlice.fetched (fst r))))) ->
        exists k e, In (k, e) (LazySlice.fetched (fst r))
                    /\ k <> ID x /\ status e <> Removed /\ value e = v)
  /\ (key_inv (LazySlice.fetched s) ->
      forall k e, In (k, e) (LazySlice.fetched (fst r)) -> present e ->
                  ID (value e) <> ID x)
  /\ (LazySlice.isSet s = true ->
      forall w,
        LazySlice.GetAll (fst r) w
        = Ret ((fst r,
                (Some (filterRemoved (linkedmap.Values (LazySlice.fetched (fst r)))),
                 None)), w))
  /\ (forall w f (values : list T) (env1 : W),
        LazySlice.isSet s = false ->
        LazySlice.fn s = Some f ->
        f zero (env w) = ((values, None), env1) ->
        exists s3,
          LazySlice.GetAll (fst r) w
          = Ret ((s3,
                  (Some (filterRemoved (linkedmap.Values (LazySlice.fetched s3))),
                   None)),
                 {| env := env1; calls := calls w ++ [zero] |})
          /\ linkedmap.Get (ID x) (LazySlice.fetched s3)
             = match find (has_id (ID x)) values with
               | Some v0 => Some {| value := v0; status := Unchanged |}
               | None => None
               end
          /\ (forall c, In c (Collect (Items (LazySlice.Changes s3))) ->
                        change_ID c <> ID x)).
Proof.
  intros Hget Hadded r.
  assert (Hf : LazySlice.fetched (fst r)
               = linkedmap.Delete (ID x) (LazySlice.fetched s)).
  { unfold r. rewrite fetched_Remove, Hget.
    rewrite (proj2 (Status_eqb_eq _ _) Hadded).
    rewrite fetched_Set_. apply Delete_Put. }
  assert (Hnot : forall k e, In (k, e) (LazySlice.fetched (fst r)) -> k <> ID x).
  { intros k e HIn. rewrite Hf in HIn. apply In_Delete in HIn. tauto. }
  split; [|split; [|split; [|split; [|split; [|split; [|split; [|split; [|split]]]]]]]].
  - unfold r, LazySlice.Remove. rewrite Hget.
    rewrite (proj2 (Status_eqb_eq _ _) Hadded). reflexivity.
  - exact Hf.
  - intros Hnone.
    destruct (Remove_flags (LazySlice.Set_ s x) (ID x)) as (F1 & F2 & F3).
    destruct (Set_flags s x) as (G1 & G2 & G3).
    fold r in F1, F2, F3. rewrite Delete_untracked in Hf by assumption.
    destruct (fst r) as [a b c d], s as [a' b' c' d']. simpl in *. congruence.
  - rewrite Hf. apply Get_Delete_eq.
  - apply Get_None_Keys. rewrite Hf. apply Get_Delete_eq.
  - intros c Hc. apply In_Collect_Changes in Hc.
    destruct Hc as [k [e [HIn [_ ->]]]]. simpl. eauto.
  - intros v Hv. apply In_Collect_live in Hv.
    destruct Hv as [k [e [HIn [Hs Hv]]]]. exists k, e. eauto.
  - intros Hinv k e HIn Hp E.
    assert (k <> ID x) by eauto.
    rewrite Hf in HIn. apply In_Delete in HIn. destruct HIn as [HIn _].
    pose proof (Hinv _ _ HIn Hp). congruence.
  - intros Hset w.
    destruct (Remove_flags (LazySlice.Set_ s x) (ID x)) as (F1 & _).
    destruct (Set_flags s x) as (G1 & _). fold r in F1.
    unfold LazySlice.GetAll. now rewrite F1, G1, Hset.
  - intros w f values env1 Hunset Hfn Hcall.
    destruct (Remove_flags (LazySlice.Set_ s x) (ID x)) as (F1 & _ & F3).
    destruct (Set_flags s x) as (G1 & _ & G3). fold r in F1, F3.
    eexists. split.
    { unfold LazySlice.GetAll, call. rewrite F1, G1, Hunset, F3, G3, Hfn, Hcall.
      reflexivity. }
    simpl. split.
    + rewrite Get_fold_merge, Hf, Get_Delete_eq. reflexivity.
    + intros c Hc E.
      match type of Hc with
      | In _ (Collect (LazySlice.changesIterator ?s3)) =>
          apply (proj1 (In_Collect_Changes s3 c)) in Hc
      end.
      destruct Hc as [k [e [HIn [Hst ->]]]]. simpl in *. subst k.
      apply Hst. revert HIn. apply merge_keeps_unchanged_at.
      intros it0 HIn0. exfalso. apply (Hnot _ _ HIn0). reflexivity.
Qed.

(** *** Loading: GetAll and Get *)

Lemma find_has_id_In (values : list T) v :
  In v values ->
  exists v0, find (has_id (ID v)) values = Some v0 /\ In v0 values /\ ID v0 = ID v.
Proof.
  intros HIn. destruct (find (has_id (ID v)) values) as [v0|] eqn:E.
  - exists v0. apply find_some in E. destruct E as [HIn0 Hid].
    unfold has_id in Hid. destruct (eq_dec (ID v0) (ID v)); [auto | discriminate].
  - exfalso. apply (find_none _ _ E) in HIn. unfold has_id in HIn.
    destruct (eq_dec (ID v) (ID v)); congruence.
Qed.

Lemma find_has_id_None (values : list T) k :
  ~ In k (map ID values) -> find (has_id k) values = None.
Proof.
  intros Hnot. destruct (find (has_id k) values) as [v0|] eqn:E; [|reflexivity].
  exfalso. apply find_some in E. destruct E as [HIn Hid]. apply Hnot.
  unfold has_id in Hid. destruct (eq_dec (ID v0) k); [|discriminate].
  subst k. now apply in_map.
Qed.

Lemma NoDup_map_ID_inj (values : list T) a b :
  NoDup (map ID values) -> In a values -> In b values -> ID a = ID b -> a = b.
Proof.
  induction values as [|v values IH]; simpl; [tauto|].
  intros Hnd Ha Hb E. inversion Hnd as [|? ? Hnot Hnd']; subst.
  destruct Ha as [<-|Ha], Hb as [<-|Hb]; auto.
  - exfalso. apply Hnot. rewrite E. now apply in_map.
  - exfalso. apply Hnot. rewrite <- E. now apply in_map.
Qed.

(** C2. On a collection that is not loaded and whose fetch-all succeeds,
    [GetAll] calls the fetch once with the zero identity, sets the loaded
    flag and merges: a fetched identity that was untracked is inserted as
    [Unchanged] (holding the first fetched value of that identity, the
    fetched value itself when identities are not repeated); one tracked as
    [Added] becomes [Modified] and keeps the local value; one tracked with
    any other status keeps its item; identities that were not fetched keep
    theirs. *)
Theorem GetAll_merges_baseline s w f (values : list T) (env1 : W) :
  LazySlice.isSet s = false ->
  LazySlice.fn s = Some f ->
  f zero (env w) = ((values, None), env1) ->
  exists s',
    LazySlice.GetAll s w
    = Ret ((s', (Some (filterRemoved (linkedmap.Values (LazySlice.fetched s'))), None)),
           {| env := env1; calls := calls w ++ [zero] |})
    /\ LazySlice.isSet s' = true
    /\ LazySlice.isReset s' = LazySlice.isReset s
    /\ LazySlice.fn s' = LazySlice.fn s
    /\ (forall v, In v values ->
          match linkedmap.Get (ID v) (LazySlice.fetched s) with
          | None =>
              exists v0, find (has_id (ID v)) values = Some v0
                         /\ ID v0 = ID v
                         /\ linkedmap.Get (ID v) (LazySlice.fetched s')
                            = Some {| value := v0; status := Unchanged |}
          | Some it =>
              linkedmap.Get (ID v) (LazySlice.fetched s')
              = Some match status it with
                     | Added => {| value := value it; status := Modified |}
                     | Modified | Removed | Absent | Unchanged => it
                     end
          end)
    /\ (NoDup (map ID values) ->
        forall v, In v values ->
          linkedmap.Get (ID v) (LazySlice.fetched s) = None ->
          linkedmap.Get (ID v) (LazySlice.fetched s')
          = Some {| value := v; status := Unchanged |})
    /\ (forall k, ~ In k (map ID values) ->
          linkedmap.Get k (LazySlice.fetched s')
          = linkedmap.Get k (LazySlice.fetched s)).
Proof.
  intros Hunset Hfn Hcall.
  eexists. split.
  { unfold LazySlice.GetAll, call. rewrite Hunset, Hfn, Hcall. reflexivity. }
  simpl. repeat (split; [first [reflexivity | now symmetry]|]).
  assert (Hmerged : forall v, In v values ->
            match linkedmap.Get (ID v) (LazySlice.fetched s) with
            | None =>
                exists v0, find (has_id (ID v)) values = Some v0
                           /\ In v0 values /\ ID v0 = ID v
                           /\ linkedmap.Get (ID v)
                                (fold_left LazySlice.merge values (LazySlice.fetched s))
                              = Some {| value := v0; status := Unchanged |}
            | Some it =>
                linkedmap.Get (ID v)
                  (fold_left LazySlice.merge values (LazySlice.fetched s))
                = Some match status it with
                       | Added => {| value := value it; status := Modified |}
                       | Modified | Removed | Absent | Unchanged => it
                       end
            end).
  { intros v HIn. rewrite Get_fold_merge.
    destruct (find_has_id_In _ _ HIn) as [v0 [Hfind [HIn0 Hid]]].
    rewrite Hfind.
    destruct (linkedmap.Get (ID v) (LazySlice.fetched s)) as [it|].
    - destruct (status it); reflexivity.
    - exists v0. auto. }
  split; [|split].
  - intros v HIn. specialize (Hmerged v HIn).
    destruct (linkedmap.Get (ID v) (LazySlice.fetched s)); [exact Hmerged|].
    destruct Hmerged as [v0 (H1 & _ & H2 & H3)]. exists v0. auto.
  - intros Hnd v HIn Hnone. specialize (Hmerged v HIn). rewrite Hnone in Hmerged.
    destruct Hmerged as [v0 (_ & HIn0 & Hid & Hg)].
    assert (v0 = v) by (eapply NoDup_map_ID_inj; eauto). now subst v0.
  - intros k Hnot. rewrite Get_fold_merge, find_has_id_None by assumption.
    destruct (linkedmap.Get k (LazySlice.fetched s)); reflexivity.
Qed.

(** C3. [Get(id)]: a tracked [Absent] or [Removed] identity is not found;
    a tracked identity of any other status yields its value; an untracked
    identity of a loaded collection is not found; none of these calls the
    fetch (the world comes back as it was).  Otherwise the fetch is called
    on [id] once: an empty answer records an [Absent] tombstone under [id]
    and reports not found, after which [Get(id)] reports not found in any
    world without calling the fetch; a non-empty answer records its first
    value as [Unchanged] under that value's identity and returns it. *)
Theorem Get_cases s id w :
  (forall it, linkedmap.Get id (LazySlice.fetched s) = Some it ->
     status it = Absent \/ status it = Removed ->
     LazySlice.Get s id w = Ret ((s, (zero, Some ErrNotFound)), w))
  /\ (forall it, linkedmap.Get id (LazySlice.fetched s) = Some it ->
        status it <> Absent -> status it <> Removed ->
        LazySlice.Get s id w = Ret ((s, (value it, None)), w))
  /\ (linkedmap.Get id (LazySlice.fetched s) = None ->
      LazySlice.isSet s = true ->
      LazySlice.Get s id w = Ret ((s, (zero, Some ErrNotFound)), w))
  /\ (forall f (values : list T) (env1 : W),
        linkedmap.Get id (LazySlice.fetched s) = None ->
        LazySlice.isSet s = false ->
        LazySlice.fn s = Some f ->
        f id (env w) = ((values, None), env1) ->
        match values with
        | [] =>
            exists s1,
              LazySlice.Get s id w
              = Ret ((s1, (zero, Some ErrNotFound)),
                     {| env := env1; calls := calls w ++ [id] |})
              /\ linkedmap.Get id (LazySlice.fetched s1)
                 = Some {| value := zero; status := Absent |}
              /\ (forall w2, LazySlice.Get s1 id w2
                             = Ret ((s1, (zero, Some ErrNotFound)), w2))
        | v0 :: _ =>
            exists s1,
              LazySlice.Get s id w
              = Ret ((s1, (v0, None)),
                     {| env := env1; calls := calls w ++ [id] |})
              /\ linkedmap.Get (ID v0) (LazySlice.fetched s1)
                 = Some {| value := v0; status := Unchanged |}
        end).
Proof.
  split; [|split; [|split]].
  - intros it Hget Hst. unfold LazySlice.Get. rewrite Hget.
    destruct Hst as [-> | ->]; reflexivity.
  - intros it Hget H1 H2. unfold LazySlice.Get. rewrite Hget.
    destruct (status it); try reflexivity; congruence.
  - intros Hget Hset. unfold LazySlice.Get. now rewrite Hget, Hset.
  - intros f values env1 Hget Hunset Hfn Hcall.
    unfold LazySlice.Get, call. rewrite Hget, Hunset, Hfn, Hcall.
    destruct values as [|v0 values].
    + eexists. split; [reflexivity|]. simpl. split; [apply Get_Put_eq|].
      intros w2. unfold LazySlice.Get. simpl. now rewrite Get_Put_eq.
    + eexists. split; [reflexivity|]. simpl. apply Get_Put_eq.
Qed.

(** C5. On a loaded collection [GetAll] changes neither the collection nor
    the world, and its sequence is the loop over the values of the entries
    whose status is not [Removed], in store order; the items of
    [Changes()] are the loop over the entries whose status is not
    [Unchanged], as (key, value, status), in store order, and its reset
    flag is [isReset].  Both hold for every consumer, one that stops early
    included. *)
Theorem live_view_and_changeset s w :
  LazySlice.isSet s = true ->
  exists seq,
    LazySlice.GetAll s w = Ret ((s, (Some seq, None)), w)
    /\ Collect seq
       = map (@value T)
           (filter (fun it => negb (Status_eqb (status it) Removed))
                   (map snd (LazySlice.fetched s)))
    /\ (forall (S : Type) (yield : T -> S -> S * bool) (a : S),
          seq S yield a
          = range (map (@value T)
                     (filter (fun it => negb (Status_eqb (status it) Removed))
                             (map snd (LazySlice.fetched s)))) yield a)
    /\ Reset (LazySlice.Changes s) = LazySlice.isReset s
    /\ Collect (Items (LazySlice.Changes s))
       = map (fun e => {| change_ID := fst e; change_Value := value (snd e);
                          change_Status := status (snd e) |})
           (filter (fun e => negb (Status_eqb (status (snd e)) Unchanged))
                   (LazySlice.fetched s))
    /\ (forall (S : Type) (yield : SliceChange I T -> S -> S * bool) (a : S),
          Items (LazySlice.Changes s) yield a
          = range (map (fun e => {| change_ID := fst e; change_Value := value (snd e);
                                    change_Status := status (snd e) |})
                     (filter (fun e => negb (Status_eqb (status (snd e)) Unchanged))
                             (LazySlice.fetched s))) yield a).
Proof.
  intros Hset. eexists. split.
  { unfold LazySlice.GetAll. rewrite Hset. reflexivity. }
  split; [apply Collect_filterRemoved|].
  split; [intros; apply filterRemoved_Values|].
  split; [reflexivity|].
  split; [apply Collect_changesIterator|].
  intros. apply changesIterator_range.
Qed.

(** *** SetAll, Clear and the eager constructor: a loop of [Put]s *)

Local Abbreviation put_each st xs m0 :=
  (fold_left (fun m v => linkedmap.Put (ID v) {| value := v; status := st |} m) xs m0).

Lemma find_snoc (p : T -> bool) (l : list T) v :
  find p (l ++ [v])
  = match find p l with
    | Some v' => Some v'
    | None => if p v then Some v else None
    end.
Proof.
  induction l as [|a l IH]; simpl; [reflexivity|].
  destruct (p a); [reflexivity | exact IH].
Qed.

(** Under a key the loop leaves the last value carrying that key. *)
Lemma Get_put_each st (xs : list T) m0 k :
  linkedmap.Get k (put_each st xs m0)
  = match find (has_id k) (rev xs) with
    | Some v' => Some {| value := v'; status := st |}
    | None => linkedmap.Get k m0
    end.
Proof.
  revert m0. induction xs as [|v xs IH]; intros m0; simpl; [reflexivity|].
  rewrite IH, find_snoc.
  destruct (find (has_id k) (rev xs)); [reflexivity|].
  unfold has_id. destruct (eq_dec (ID v) k) as [E|N].
  - subst k. apply Get_Put_eq.
  - apply Get_Put_ne. congruence.
Qed.

Lemma In_put_each st (xs : list T) m0 k it :
  In (k, it) (put_each st xs m0) ->
  In (k, it) m0 \/ (status it = st /\ In (value it) xs /\ ID (value it) = k).
Proof.
  revert m0. induction xs as [|v xs IH]; intros m0; simpl; [auto|].
  intros HIn. apply IH in HIn. destruct HIn as [HIn|HIn].
  - apply In_Put in HIn. destruct HIn as [E|HIn]; [|auto].
    inversion E; subst. right. simpl. auto.
  - right. tauto.
Qed.

Lemma wf_put_each st (xs : list T) m0 :
  linkedmap.wf m0 -> linkedmap.wf (put_each st xs m0).
Proof.
  revert m0. induction xs as [|v xs IH]; intros m0 Hm; simpl; [assumption|].
  apply IH. now apply wf_Put.
Qed.

(** With pairwise distinct, untracked identities the loop appends one
    entry per value, in order. *)
Lemma put_each_distinct st (xs : list T) m0 :
  NoDup (map ID xs) ->
  (forall v, In v xs -> linkedmap.Get (ID v) m0 = None) ->
  put_each st xs m0
  = m0 ++ map (fun v => (ID v, {| value := v; status := st |})) xs.
Proof.
  revert m0. induction xs as [|v xs IH]; intros m0 Hnd Hnone; simpl.
  - now rewrite app_nil_r.
  - inversion Hnd as [|? ? Hnot Hnd']; subst.
    rewrite IH; [|assumption|].
    + rewrite Put_untracked by (apply Hnone; now left).
      now rewrite <- app_assoc.
    + intros v' HIn. rewrite Get_Put_ne; [apply Hnone; now right|].
      intros E. apply Hnot. rewrite <- E. now apply in_map.
Qed.

Lemma key_inv_put_each st (xs : list T) m0 :
  key_inv m0 -> key_inv (put_each st xs m0).
Proof.
  intros Hm k it HIn Hp. apply In_put_each in HIn.
  destruct HIn as [HIn|(_ & _ & E)]; [now apply Hm | exact E].
Qed.

Lemma tomb_inv_put_each st (xs : list T) m0 :
  st <> Removed -> st <> Absent -> tomb_inv m0 -> tomb_inv (put_each st xs m0).
Proof.
  intros N1 N2 Hm k it HIn Hs. apply In_put_each in HIn.
  destruct HIn as [HIn|(E & _ & _)]; [now apply (Hm k)|].
  destruct Hs; congruence.
Qed.

(** C7, as amended.  [SetAll(xs)] sets both flags, keeps the fetch
    function and builds its store from [xs] alone: every entry has status
    [Added] and holds a value of [xs] under that value's identity, every
    identity of [xs] is tracked once and holds the last value of [xs] with
    that identity, and when the identities of [xs] are pairwise distinct
    the entries are exactly the values of [xs] with status [Added], in the
    given order.  [Clear()] gives the very state [SetAll] of the empty list
    gives. *)
Theorem SetAll_resets s (xs : list T) :
  LazySlice.isSet (LazySlice.SetAll s xs) = true
  /\ LazySlice.isReset (LazySlice.SetAll s xs) = true
  /\ LazySlice.fn (LazySlice.SetAll s xs) = LazySlice.fn s
  /\ (forall s2 : LazySlice.t T I W,
        LazySlice.fetched (LazySlice.SetAll s2 xs)
        = LazySlice.fetched (LazySlice.SetAll s xs))
  /\ (forall k it, In (k, it) (LazySlice.fetched (LazySlice.SetAll s xs)) ->
        status it = Added /\ In (value it) xs /\ ID (value it) = k)
  /\ linkedmap.wf (LazySlice.fetched (LazySlice.SetAll s xs))
  /\ (forall v, In v xs ->
        exists v', find (has_id (ID v)) (rev xs) = Some v'
                   /\ linkedmap.Get (ID v) (LazySlice.fetched (LazySlice.SetAll s xs))
                      = Some {| value := v'; status := Added |})
  /\ (NoDup (map ID xs) ->
      LazySlice.fetched (LazySlice.SetAll s xs)
      = map (fun v => (ID v, {| value := v; status := Added |})) xs)
  /\ LazySlice.Clear s = LazySlice.SetAll s [].
Proof.
  repeat (split; [reflexivity|]). simpl.
  split; [|split; [|split; [|split]]].
  - intros k it HIn. apply In_put_each in HIn. destruct HIn as [[]|H]. exact H.
  - apply wf_put_each, wf_New.
  - intros v HIn. rewrite Get_put_each.
    assert (HIn' : In v (rev xs)) by now apply in_rev in HIn.
    destruct (find_has_id_In _ _ HIn') as [v' [Hfind _]].
    exists v'. now rewrite Hfind.
  - intros Hnd. now rewrite put_each_distinct.
  - reflexivity.
Qed.

(** *** Every operation, and every sequence of operations *)

Ltac same_state :=
  split; [first [reflexivity | assumption]|];
  split; [intros E; first [discriminate
                          | split; [first [assumption | exact E] | reflexivity]]
         | left; reflexivity].

Lemma exec_Ret_cases o s w s' w' :
  LazySlice.exec o s w = Ret (s', w') ->
  LazySlice.fn s' = LazySlice.fn s
  /\ (LazySlice.isSet s = true -> LazySlice.isSet s' = true /\ w' = w)
  /\ (s' = s
      \/ (exists values, LazySlice.isSet s = false /\
            LazySlice.fetched s' = fold_left LazySlice.merge values (LazySlice.fetched s))
      \/ (exists id, LazySlice.isSet s = false /\
            LazySlice.fetched s'
            = linkedmap.Put id {| value := zero; status := Absent |} (LazySlice.fetched s))
      \/ (exists v, LazySlice.isSet s = false /\
            LazySlice.fetched s'
            = linkedmap.Put (ID v) {| value := v; status := Unchanged |}
                (LazySlice.fetched s))
      \/ (exists xs, s' = LazySlice.SetAll s xs)
      \/ (exists v, s' = LazySlice.Set_ s v)
      \/ s' = LazySlice.Clear s
      \/ (exists id, s' = fst (LazySlice.Remove s id))).
Proof.
  destruct o as [|id|xs|v| |id]; simpl.
  - unfold LazySlice.GetAll, call.
    destruct (LazySlice.isSet s) eqn:Hset.
    + intros H; inversion H; subst. same_state.
    + destruct (LazySlice.fn s) as [f|] eqn:Hfn; [|discriminate].
      destruct (f zero (env w)) as [[values [err|]] env1];
        intros H; inversion H; subst; simpl.
      * same_state.
      * split; [first [reflexivity | assumption]|]. split; [discriminate|]. right. left.
        exists values. auto.
  - unfold LazySlice.Get, call.
    destruct (linkedmap.Get id (LazySlice.fetched s)) as [it|].
    + destruct (Status_eqb (status it) Absent || Status_eqb (status it) Removed);
        intros H; inversion H; subst; same_state.
    + destruct (LazySlice.isSet s) eqn:Hset.
      * intros H; inversion H; subst. same_state.
      * destruct (LazySlice.fn s) as [f|] eqn:Hfn; [|discriminate].
        destruct (f id (env w)) as [[[|v0 values] [err|]] env1];
          intros H; inversion H; subst; simpl; try same_state.
        -- split; [first [reflexivity | assumption]|]. split; [discriminate|].
           right. right. left. exists id. auto.
        -- split; [first [reflexivity | assumption]|]. split; [discriminate|].
           right. right. right. left. exists v0. auto.
  - intros H; inversion H; subst. split; [reflexivity|].
    split; [auto|]. do 4 right. left. now exists xs.
  - intros H; inversion H; subst. destruct (Set_flags s v) as (F1 & F2 & F3).
    split; [assumption|]. split; [intros E; rewrite F1; auto|].
    do 5 right. left. now exists v.
  - intros H; inversion H; subst. split; [reflexivity|].
    split; [auto|]. do 6 right. now left.
  - intros H; inversion H; subst. destruct (Remove_flags s id) as (F1 & F2 & F3).
    split; [assumption|]. split; [intros E; rewrite F1; auto|].
    do 7 right. now exists id.
Qed.

Lemma exec_total o s w :
  LazySlice.loadable s -> exists s' w', LazySlice.exec o s w = Ret (s', w').
Proof.
  unfold LazySlice.loadable. intros Hl.
  destruct o as [|id|xs|v| |id]; simpl; try (eexists _, _; reflexivity).
  - unfold LazySlice.GetAll, call.
    destruct (LazySlice.isSet s); [eexists _, _; reflexivity|].
    destruct Hl as [Hl|Hl]; [discriminate|].
    destruct (LazySlice.fn s) as [f|]; [|congruence].
    destruct (f zero (env w)) as [[values [err|]] env1]; eexists _, _; reflexivity.
  - unfold LazySlice.Get, call.
    destruct (linkedmap.Get id (LazySlice.fetched s)) as [it|].
    + destruct (Status_eqb (status it) Absent || Status_eqb (status it) Removed);
        eexists _, _; reflexivity.
    + destruct (LazySlice.isSet s); [eexists _, _; reflexivity|].
      destruct Hl as [Hl|Hl]; [discriminate|].
      destruct (LazySlice.fn s) as [f|]; [|congruence].
      destruct (f id (env w)) as [[[|v0 values] [err|]] env1];
        eexists _, _; reflexivity.
Qed.

Lemma exec_loadable o s w s' w' :
  LazySlice.exec o s w = Ret (s', w') -> LazySlice.loadable s -> LazySlice.loadable s'.
Proof.
  unfold LazySlice.loadable.
  intros H Hl. destruct (exec_Ret_cases _ _ _ H) as (Hfn & Hset & _).
  destruct Hl as [Hl|Hl]; [left; now apply Hset | right; congruence].
Qed.

(** A property of the store kept by every call is kept by every run. *)
Lemma run_preserves (P : LazySlice.t T I W -> Prop) :
  (forall o s w s' w', P s -> LazySlice.exec o s w = Ret (s', w') -> P s') ->
  forall os s w s' w', P s -> LazySlice.run os s w = Ret (s', w') -> P s'.
Proof.
  intros Hstep os. induction os as [|o os IH]; intros s w s' w' HP; simpl.
  - intros H; inversion H; subst. assumption.
  - destruct (LazySlice.exec o s w) as [[s1 w1]|] eqn:E; [|discriminate].
    apply IH. eapply Hstep; eauto.
Qed.

Lemma run_total os s w :
  LazySlice.loadable s -> exists s' w', LazySlice.run os s w = Ret (s', w').
Proof.
  revert s w. induction os as [|o os IH]; intros s w Hl; simpl.
  - eexists _, _; reflexivity.
  - destruct (exec_total o w Hl) as [s1 [w1 E]]. rewrite E.
    apply IH. eapply exec_loadable; eauto.
Qed.

Lemma key_inv_Set_ s v :
  key_inv (LazySlice.fetched s) -> key_inv (LazySlice.fetched (LazySlice.Set_ s v)).
Proof.
  intros Hinv. rewrite fetched_Set_. apply key_inv_Put; [assumption | item_side].
Qed.

Lemma key_inv_Remove s id :
  key_inv (LazySlice.fetched s) ->
  key_inv (LazySlice.fetched (fst (LazySlice.Remove s id))).
Proof.
  intros Hinv. rewrite fetched_Remove.
  destruct (linkedmap.Get id (LazySlice.fetched s)) as [it|];
    [destruct (Status_eqb (status it) Added)|];
    first [now apply key_inv_Delete | apply key_inv_Put; [assumption | item_side]].
Qed.

Lemma exec_key_inv o s w s' w' :
  key_inv (LazySlice.fetched s) -> LazySlice.exec o s w = Ret (s', w') ->
  key_inv (LazySlice.fetched s').
Proof.
  intros Hinv H. destruct (exec_Ret_cases _ _ _ H) as (_ & _ & Hc).
  destruct Hc as [->|[[values [_ ->]]|[[id [_ ->]]|[[v [_ ->]]|[[xs ->]|[[v ->]|[->|[id ->]]]]]]]].
  - assumption.
  - now apply key_inv_fold_merge.
  - apply key_inv_Put; [assumption | item_side].
  - apply key_inv_Put; [assumption | item_side].
  - simpl. apply key_inv_put_each, key_inv_New.
  - now apply key_inv_Set_.
  - simpl. apply key_inv_New.
  - now apply key_inv_Remove.
Qed.

Lemma exec_tomb_inv o s w s' w' :
  tomb_inv (LazySlice.fetched s) -> LazySlice.exec o s w = Ret (s', w') ->
  tomb_inv (LazySlice.fetched s').
Proof.
  intros Hinv H. destruct (exec_Ret_cases _ _ _ H) as (_ & _ & Hc).
  destruct Hc as [->|[[values [_ ->]]|[[id [_ ->]]|[[v [_ ->]]|[[xs ->]|[[v ->]|[->|[id ->]]]]]]]].
  - assumption.
  - now apply tomb_inv_fold_merge.
  - apply tomb_inv_Put; [assumption | item_side].
  - apply tomb_inv_Put; [assumption | item_side].
  - simpl. apply tomb_inv_put_each; [discriminate | discriminate | apply tomb_inv_New].
  - rewrite fetched_Set_. apply tomb_inv_Put; [assumption|]. simpl.
    destruct (linkedmap.Get (ID v) (LazySlice.fetched s)) as [it|];
      [destruct (status it)|]; item_side.
  - simpl. apply tomb_inv_New.
  - rewrite fetched_Remove.
    destruct (linkedmap.Get id (LazySlice.fetched s)) as [it|];
      [destruct (Status_eqb (status it) Added)|];
      first [now apply tomb_inv_Delete | apply tomb_inv_Put; [assumption | item_side]].
Qed.

Lemma exec_wf o s w s' w' :
  linkedmap.wf (LazySlice.fetched s) -> LazySlice.exec o s w = Ret (s', w') ->
  linkedmap.wf (LazySlice.fetched s').
Proof.
  intros Hwf H. destruct (exec_Ret_cases _ _ _ H) as (_ & _ & Hc).
  destruct Hc as [->|[[values [_ ->]]|[[id [_ ->]]|[[v [_ ->]]|[[xs ->]|[[v ->]|[->|[id ->]]]]]]]].
  - assumption.
  - now apply wf_fold_merge.
  - now apply wf_Put.
  - now apply wf_Put.
  - simpl. apply wf_put_each, wf_New.
  - rewrite fetched_Set_. now apply wf_Put.
  - simpl. apply wf_New.
  - rewrite fetched_Remove.
    destruct (linkedmap.Get id (LazySlice.fetched s)) as [it|];
      [destruct (Status_eqb (status it) Added)|];
      first [now apply wf_Delete | now apply wf_Put].
Qed.

(** Every run keeps each key stored once. *)
Lemma run_wf os s w s' w' :
  linkedmap.wf (LazySlice.fetched s) -> LazySlice.run os s w = Ret (s', w') ->
  linkedmap.wf (LazySlice.fetched s').
Proof.
  intros Hwf H.
  eapply (run_preserves (fun s0 => linkedmap.wf (LazySlice.fetched s0)));
    [intros; eapply exec_wf; eauto | exact Hwf | exact H].
Qed.

Lemma exec_isSet o s w s' w' :
  LazySlice.isSet s = true -> LazySlice.exec o s w = Ret (s', w') ->
  LazySlice.isSet s' = true.
Proof.
  intros Hset H. destruct (exec_Ret_cases _ _ _ H) as (_ & Hs & _).
  now apply Hs.
Qed.

(** C8. Every present value (status neither [Removed] nor [Absent]) is
    stored under its own identity: this holds of a fresh lazy collection
    and of an eagerly built one, each of [Set], [SetAll], [Remove],
    [Clear], [Get] and [GetAll] keeps it, and so every sequence of calls
    on a collection that is loaded or holds a fetch function runs to a
    state that has it. *)
Theorem key_inv_every_operation :
  (forall fn, key_inv (LazySlice.fetched (@NewLazySlice T I W fn)))
  /\ (forall xs : list T,
        key_inv (LazySlice.fetched (Slice.embedded (@NewSlice T I W _ _ xs))))
  /\ (forall s, key_inv (LazySlice.fetched s) ->
        (forall v, key_inv (LazySlice.fetched (LazySlice.Set_ s v)))
        /\ (forall xs, key_inv (LazySlice.fetched (LazySlice.SetAll s xs)))
        /\ (forall id, key_inv (LazySlice.fetched (fst (LazySlice.Remove s id))))
        /\ key_inv (LazySlice.fetched (LazySlice.Clear s))
        /\ (forall id w s' r w',
              LazySlice.Get s id w = Ret ((s', r), w') ->
              key_inv (LazySlice.fetched s'))
        /\ (forall w s' r w',
              LazySlice.GetAll s w = Ret ((s', r), w') ->
              key_inv (LazySlice.fetched s')))
  /\ (forall os s w,
        key_inv (LazySlice.fetched s) -> LazySlice.loadable s ->
        exists s' w', LazySlice.run os s w = Ret (s', w')
                      /\ key_inv (LazySlice.fetched s')).
Proof.
  split; [|split; [|split]].
  - intros fn. apply key_inv_New.
  - intros xs. simpl. apply key_inv_put_each, key_inv_New.
  - intros s Hinv. repeat split.
    + intros v. now apply key_inv_Set_.
    + intros xs. simpl. apply key_inv_put_each, key_inv_New.
    + intros id. now apply key_inv_Remove.
    + simpl. apply key_inv_New.
    + intros id w s' r w' H.
      apply (@exec_key_inv (LazySlice.CallGet id) s w s' w' Hinv).
      simpl. now rewrite H.
    + intros w s' r w' H.
      apply (@exec_key_inv LazySlice.CallGetAll s w s' w' Hinv).
      simpl. now rewrite H.
  - intros os s w Hinv Hl.
    destruct (run_total os w Hl) as [s' [w' E]]. exists s', w'. split; [exact E|].
    eapply (run_preserves (fun s0 => key_inv (LazySlice.fetched s0)));
      [intros; eapply exec_key_inv; eauto | exact Hinv | exact E].
Qed.

(** C9. The eager [Get] has no error result and does not look at the
    status: for a tracked identity it returns the stored value, for an
    untracked one the zero value.  On every state an eagerly built
    collection can reach (and every sequence of calls reaches one), a
    [Removed] or [Absent] entry stores the zero value, so the eager [Get]
    returns the zero value there, where the lazy [Get] on the same state
    reports [ErrNotFound], as it does for an untracked identity. *)
Theorem eager_Get_ignores_tombstones (e : Slice.t T I W) id :
  (forall it, linkedmap.Get id (LazySlice.fetched (Slice.embedded e)) = Some it ->
     Slice.Get e id = value it)
  /\ (linkedmap.Get id (LazySlice.fetched (Slice.embedded e)) = None ->
      Slice.Get e id = zero)
  /\ (forall (xs : list T) os w w',
        LazySlice.run os (Slice.embedded (NewSlice xs)) w
        = Ret (Slice.embedded e, w') ->
        (forall it,
           linkedmap.Get id (LazySlice.fetched (Slice.embedded e)) = Some it ->
           status it = Removed \/ status it = Absent ->
           value it = zero
           /\ Slice.Get e id = zero
           /\ LazySlice.Get (Slice.embedded e) id w'
              = Ret ((Slice.embedded e, (zero, Some ErrNotFound)), w'))
        /\ (linkedmap.Get id (LazySlice.fetched (Slice.embedded e)) = None ->
            LazySlice.Get (Slice.embedded e) id w'
            = Ret ((Slice.embedded e, (zero, Some ErrNotFound)), w')))
  /\ (forall (xs : list T) os w,
        exists s w',
          LazySlice.run os (Slice.embedded (@NewSlice T I W _ _ xs)) w = Ret (s, w')).
Proof.
  split; [|split; [|split]].
  - intros it H. unfold Slice.Get. now rewrite H.
  - intros H. unfold Slice.Get. now rewrite H.
  - intros xs os w w' Hrun.
    assert (Hreach : LazySlice.isSet (Slice.embedded e) = true
                     /\ tomb_inv (LazySlice.fetched (Slice.embedded e))).
    { eapply (run_preserves
                (fun s0 => LazySlice.isSet s0 = true /\ tomb_inv (LazySlice.fetched s0)));
        [| |exact Hrun].
      - intros o s w0 s' w0' [Hs Ht] Hex. split.
        + eapply exec_isSet; eauto.
        + eapply exec_tomb_inv; eauto.
      - split; [reflexivity|]. simpl.
        apply tomb_inv_put_each; [discriminate | discriminate | apply tomb_inv_New]. }
    destruct Hreach as [Hset Htomb]. split.
    + intros it Hget Hst.
      assert (Hz : value it = zero)
        by (apply (Htomb id it); [now apply Get_Some_In | assumption]).
      split; [exact Hz|]. split.
      * unfold Slice.Get. now rewrite Hget.
      * unfold LazySlice.Get. rewrite Hget.
        destruct Hst as [-> | ->]; reflexivity.
    + intros Hget. unfold LazySlice.Get. now rewrite Hget, Hset.
  - intros xs os w. apply run_total. left. reflexivity.
Qed.

End SliceFacts.

(** ** Fetch failures *)

(** C4. When the fetch function fails, the error comes back and the
    container is returned as it was: for the scalar, not set and with its
    value field untouched; for the collection's [GetAll] (and [Get]), not
    loaded and with the same store.  The failure is not remembered: the next
    [Get] of the scalar, the next [GetAll] of the collection and the next
    [Get] of an untracked identity call the fetch again, in whatever world. *)
Theorem fetch_failure_is_not_cached
    {A T I W : Type} {zA : Zero A} {idT : Identifiable T I} {cmpI : comparable I}
    {zT : Zero T} {zI : Zero I} :
  (forall (v : LazyScalar.t A W) (w : World W unit) f (x : A) (err : error) (env1 : W),
     LazyScalar.isSet v = false ->
     LazyScalar.fn v = Some f ->
     f tt (env w) = ((x, Some err), env1) ->
     LazyScalar.Get v w
     = Ret ((v, (zero, Some err)), {| env := env1; calls := calls w ++ [tt] |})
     /\ forall w2, exists r w3,
          LazyScalar.Get v w2 = Ret (r, w3) /\ calls w3 = calls w2 ++ [tt])
  /\ (forall (s : LazySlice.t T I W) (w : World W I) f (values : list T)
             (err : error) (env1 : W),
        LazySlice.isSet s = false ->
        LazySlice.fn s = Some f ->
        f zero (env w) = ((values, Some err), env1) ->
        LazySlice.GetAll s w
        = Ret ((s, (None, Some err)), {| env := env1; calls := calls w ++ [zero] |})
        /\ (forall w2, exists r w3,
              LazySlice.GetAll s w2 = Ret (r, w3) /\ calls w3 = calls w2 ++ [zero])
        /\ (forall id w2,
              linkedmap.Get id (LazySlice.fetched s) = None ->
              exists r w3,
                LazySlice.Get s id w2 = Ret (r, w3) /\ calls w3 = calls w2 ++ [id]))
  /\ (forall (s : LazySlice.t T I W) (w : World W I) f (id : I) (values : list T)
             (err : error) (env1 : W),
        linkedmap.Get id (LazySlice.fetched s) = None ->
        LazySlice.isSet s = false ->
        LazySlice.fn s = Some f ->
        f id (env w) = ((values, Some err), env1) ->
        LazySlice.Get s id w
        = Ret ((s, (zero, Some err)), {| env := env1; calls := calls w ++ [id] |})).
Proof.
  split; [|split].
  - intros v w f x err env1 Hunset Hfn Hcall. split.
    + unfold LazyScalar.Get, call. rewrite Hunset, Hfn, Hcall. reflexivity.
    + intros w2. unfold LazyScalar.Get, call. rewrite Hunset, Hfn.
      destruct (f tt (env w2)) as [[x2 [err2|]] env2]; eexists _, _; split; reflexivity.
  - intros s w f values err env1 Hunset Hfn Hcall. split; [|split].
    + unfold LazySlice.GetAll, call. rewrite Hunset, Hfn, Hcall. reflexivity.
    + intros w2. unfold LazySlice.GetAll, call. rewrite Hunset, Hfn.
      destruct (f zero (env w2)) as [[vs2 [err2|]] env2]; eexists _, _; split; reflexivity.
    + intros id w2 Hnone. unfold LazySlice.Get, call. rewrite Hnone, Hunset, Hfn.
      destruct (f id (env w2)) as [[[|v0 vs2] [err2|]] env2];
        eexists _, _; split; reflexivity.
  - intros s w f id values err env1 Hnone Hunset Hfn Hcall.
    unfold LazySlice.Get, call. rewrite Hnone, Hunset, Hfn, Hcall.
    destruct values; reflexivity.
Qed.

(* ================================================================== *)
(** * The properties at the entities of the tests                       *)
(* ================================================================== *)

Lemma NoDup_ids_e1_e2 : NoDup (map ID [e1; e2]).
Proof.
  constructor; [|constructor; [|constructor]]; simpl.
  - intros [H|[]]. discriminate H.
  - intros [].
Defined.

(** C1 at a removed identity: setting it again gives [Modified]; removing
    an [Added] identity drops it. *)
Lemma Set_Remove_transition_table_witness :
  linkedmap.Get "2"%string
    (LazySlice.fetched (LazySlice.Set_ (fst (LazySlice.Remove lazy12 "2"%string)) e2_new))
  = Some {| value := e2_new; status := Modified |}
  /\ ~ In "3"%string
       (linkedmap.Keys
          (LazySlice.fetched (fst (LazySlice.Remove (LazySlice.Set_ lazy12 e3) "3"%string)))).
Proof.
  split.
  - exact (proj1 (proj1 (Set_Remove_transition_table
                           (fst (LazySlice.Remove lazy12 "2"%string))) e2_new)).
  - destruct (proj2 (Set_Remove_transition_table (LazySlice.Set_ lazy12 e3)) "3"%string)
      as (_ & _ & H & _).
    exact (H eq_refl).
Defined.

(** C2 on the scenario "set identity 2, then load a baseline that has it". *)
Lemma GetAll_merges_baseline_witness :
  exists s',
    LazySlice.GetAll (LazySlice.Set_ lazy12 e2_new) world0
    = Ret ((s', (Some (filterRemoved (linkedmap.Values (LazySlice.fetched s'))), None)),
           {| env := 1; calls := [EmptyString] |})
    /\ LazySlice.isSet s' = true
    /\ linkedmap.Get "2"%string (LazySlice.fetched s')
       = Some {| value := e2_new; status := Modified |}
    /\ linkedmap.Get "1"%string (LazySlice.fetched s')
       = Some {| value := e1; status := Unchanged |}.
Proof.
  destruct (GetAll_merges_baseline (zI := string_Zero)
              (LazySlice.Set_ lazy12 e2_new) world0
              (f := fetcher [e1; e2]) (values := [e1; e2]) (env1 := 1)
              eq_refl eq_refl eq_refl)
    as [s' (H1 & H2 & _ & _ & H5 & H6 & _)].
  exists s'. split; [exact H1|]. split; [exact H2|]. split.
  - exact (H5 e2 (or_intror (or_introl eq_refl))).
  - exact (H6 NoDup_ids_e1_e2 e1 (or_introl eq_refl) eq_refl).
Defined.

(** C3 on the scenario "Get(99) finds nothing, twice", and on a loaded
    collection. *)
Lemma Get_cases_witness :
  (exists s1,
     LazySlice.Get (NewLazySlice (Some fetch_nothing)) "99"%string world0
     = Ret ((s1, (zero, Some ErrNotFound)), {| env := 1; calls := ["99"%string] |})
     /\ forall w2, LazySlice.Get s1 "99"%string w2
                   = Ret ((s1, (zero, Some ErrNotFound)), w2))
  /\ LazySlice.Get eager12 "99"%string world0
     = Ret ((eager12, (zero, Some ErrNotFound)), world0)
  /\ LazySlice.Get eager12 "1"%string world0 = Ret ((eager12, (e1, None)), world0).
Proof.
  split; [|split].
  - destruct (proj2 (proj2 (proj2
               (Get_cases (NewLazySlice (Some fetch_nothing)) "99"%string world0)))
               fetch_nothing [] 1 eq_refl eq_refl eq_refl eq_refl)
      as [s1 (H1 & _ & H3)].
    exists s1. split; [exact H1 | exact H3].
  - exact (proj1 (proj2 (proj2 (Get_cases eager12 "99"%string world0)))
             eq_refl eq_refl).
  - refine (proj1 (proj2 (Get_cases eager12 "1"%string world0))
              {| value := e1; status := Unchanged |} eq_refl _ _); discriminate.
Defined.

(** C4 on the failing closures of the tests. *)
Lemma fetch_failure_is_not_cached_witness :
  LazyScalar.Get (NewLazy (Some failing_scalar)) world0
  = Ret ((NewLazy (Some failing_scalar),
          (EmptyString, Some (errors_New "loading failed"))),
         {| env := 1; calls := [tt] |})
  /\ LazySlice.GetAll (NewLazySlice (Some failing_slice)) world0
     = Ret ((NewLazySlice (Some failing_slice),
             (None, Some (errors_New "loading failed"))),
            {| env := 1; calls := [EmptyString] |}).
Proof.
  destruct (fetch_failure_is_not_cached
              (A := string) (T := testEntity) (I := string) (W := nat))
    as (Hscalar & Hslice & _).
  split.
  - exact (proj1 (Hscalar (NewLazy (Some failing_scalar)) world0 failing_scalar
                    EmptyString (errors_New "loading failed") 1
                    eq_refl eq_refl eq_refl)).
  - exact (proj1 (Hslice (NewLazySlice (Some failing_slice)) world0 failing_slice
                    [] (errors_New "loading failed") 1 eq_refl eq_refl eq_refl)).
Defined.

(** C5 on the eager collection after [Remove(1)] and [Set(e3)]. *)
Lemma live_view_and_changeset_witness :
  let s := LazySlice.Set_ (fst (LazySlice.Remove eager12 "1"%string)) e3 in
  exists seq,
    LazySlice.GetAll s world0 = Ret ((s, (Some seq, None)), world0)
    /\ Collect seq = [e2; e3]
    /\ Collect (Items (LazySlice.Changes s))
       = [ {| change_ID := "1"%string; change_Value := zero; change_Status := Removed |};
           {| change_ID := "3"%string; change_Value := e3; change_Status := Added |} ].
Proof.
  intros s.
  destruct (live_view_and_changeset s world0 eq_refl)
    as [seq (H1 & H2 & _ & _ & H5 & _)].
  exists seq. split; [exact H1|]. split; [exact H2 | exact H5].
Defined.

(** C6, as amended, on the test "add and remove the same entity before
    loading". *)
Lemma Set_then_Remove_cancels_witness :
  fst (LazySlice.Remove (LazySlice.Set_ lazy12 e3) "3"%string) = lazy12
  /\ snd (LazySlice.Remove (LazySlice.Set_ lazy12 e3) "3"%string) = true
  /\ exists s3,
       LazySlice.GetAll (fst (LazySlice.Remove (LazySlice.Set_ lazy12 e2_new) "2"%string))
                        world0
       = Ret ((s3, (Some (filterRemoved (linkedmap.Values (LazySlice.fetched s3))), None)),
              {| env := 1; calls := [EmptyString] |})
       /\ linkedmap.Get "2"%string (LazySlice.fetched s3)
          = Some {| value := e2; status := Unchanged |}.
Proof.
  pose proof (Set_then_Remove_cancels lazy12 e3
                (it := {| value := e3; status := Added |})) as H.
  destruct (H eq_refl eq_refl) as (H1 & _ & H3 & _).
  split; [exact (H3 eq_refl)|]. split; [exact H1|].
  pose proof (Set_then_Remove_cancels lazy12 e2_new
                (it := {| value := e2_new; status := Added |})) as H'.
  destruct (H' eq_refl eq_refl) as (_ & _ & _ & _ & _ & _ & _ & _ & _ & Hload).
  destruct (Hload world0 (fetcher [e1; e2]) [e1; e2] 1 eq_refl eq_refl eq_refl)
    as [s3 (G1 & G2 & _)].
  exists s3. split; [exact G1 | exact G2].
Defined.

(** C6, counterexample to "absent from the GetAll live view" on every
    collection: on a collection that is not loaded and whose baseline has
    identity 2, [Set(e2_new)] makes it [Added], [Remove("2")] drops the
    entry, and [GetAll] then loads the baseline and yields [e2], a value of
    that identity. *)
Lemma Set_then_Remove_live_view_counterexample :
  ~ (linkedmap.Get (ID e2_new) (LazySlice.fetched (LazySlice.Set_ lazy12 e2_new))
     = Some {| value := e2_new; status := Added |} ->
     forall s3 seq w',
       LazySlice.GetAll (fst (LazySlice.Remove (LazySlice.Set_ lazy12 e2_new) (ID e2_new)))
                        world0
       = Ret ((s3, (Some seq, None)), w') ->
       forall v, In v (Collect seq) -> ID v <> ID e2_new).
Proof.
  intros H. apply (H eq_refl _ _ _ eq_refl e2); [|reflexivity].
  vm_compute. right. left. reflexivity.
Qed.

(** The same run, in full: the identity comes back as [Unchanged], with the
    baseline's value and no pending change. *)
Example cancelled_identity_is_merged_from_the_baseline :
  let s2 := fst (LazySlice.Remove (LazySlice.Set_ lazy12 e2_new) "2"%string) in
  s2 = lazy12
  /\ match LazySlice.GetAll s2 world0 with
     | Ret ((s3, (Some seq, None)), _) =>
         Collect seq = [e1; e2] /\ Collect (Items (LazySlice.Changes s3)) = []
     | _ => False
     end.
Proof. vm_compute. repeat split. Qed.

(** The live view can also hold the zero value of an [Absent] tombstone,
    which [filterRemoved] lets through; when [x] has the zero identity,
    that placeholder carries the identity of [x] although no entry is keyed
    by it. *)
Example absent_placeholder_carries_the_zero_identity :
  match LazySlice.Get (NewLazySlice (Some fetch_nothing)) "99"%string world0 with
  | Ret ((s1, _), _) =>
      let x := {| id := EmptyString; name := "ghost" |} in
      let s3 := fst (LazySlice.Remove (LazySlice.Set_ s1 x) (ID x)) in
      linkedmap.Get (ID x) (LazySlice.fetched s3) = None
      /\ Collect (filterRemoved (linkedmap.Values (LazySlice.fetched s3))) = [zero]
      /\ ID (zero : testEntity) = ID x
  | Panic => False
  end.
Proof. vm_compute. repeat split. Qed.

(** C7, counterexample to "records every value of xs": two values with one
    identity leave a single entry, holding the second; the first is not
    recorded. *)
Lemma SetAll_records_every_value_counterexample :
  ~ (forall v, In v [e2; e2_new] ->
       In {| value := v; status := Added |}
          (map snd (LazySlice.fetched (LazySlice.SetAll lazy12 [e2; e2_new])))).
Proof.
  intros H. specialize (H e2 (or_introl eq_refl)). simpl in H.
  destruct H as [H|[]]. discriminate H.
Qed.

Example SetAll_duplicate_identity_store :
  LazySlice.fetched (LazySlice.SetAll lazy12 [e2; e2_new])
  = [("2"%string, {| value := e2_new; status := Added |})].
Proof. reflexivity. Qed.

(** C7, as amended, on the test's [SetAll(baseEntities)]. *)
Lemma SetAll_resets_witness :
  LazySlice.fetched (LazySlice.SetAll lazy12 [e1; e2])
  = [("1"%string, {| value := e1; status := Added |});
     ("2"%string, {| value := e2; status := Added |})]
  /\ LazySlice.IsReset (LazySlice.SetAll lazy12 [e1; e2]) = true
  /\ LazySlice.Clear lazy12 = LazySlice.SetAll lazy12 [].
Proof.
  destruct (SetAll_resets lazy12 [e1; e2]) as (_ & H2 & _ & _ & _ & _ & _ & H8 & _).
  destruct (SetAll_resets lazy12 []) as (_ & _ & _ & _ & _ & _ & _ & _ & H9).
  split; [exact (H8 NoDup_ids_e1_e2)|]. split; [exact H2 | exact H9].
Defined.

(** C8 on a run that edits, loads, looks up a missing identity and edits
    again. *)
Lemma key_inv_every_operation_witness :
  exists s' w',
    LazySlice.run
      [LazySlice.CallSet e3; LazySlice.CallRemove "1"%string; LazySlice.CallGet "7"%string;
       LazySlice.CallGetAll; LazySlice.CallSet e2_new; LazySlice.CallRemove "3"%string]
      lazy12 world0 = Ret (s', w')
    /\ key_inv (LazySlice.fetched s').
Proof.
  destruct (key_inv_every_operation
              (T := testEntity) (I := string) (W := nat)) as (Hnew & _ & _ & Hrun).
  apply Hrun.
  - exact (Hnew (Some (fetcher [e1; e2]))).
  - right. discriminate.
Defined.

(** C9 on the eager collection after [Remove(1)]: the eager [Get] answers
    the zero entity where the lazy [Get] answers [ErrNotFound]. *)
Lemma eager_Get_ignores_tombstones_witness :
  let e := {| Slice.embedded := fst (LazySlice.Remove eager12 "1"%string) |} in
  Slice.Get e "1"%string = zero
  /\ LazySlice.Get (Slice.embedded e) "1"%string world0
     = Ret ((Slice.embedded e, (zero, Some ErrNotFound)), world0)
  /\ Slice.Get e "2"%string = e2
  /\ Slice.Get e "7"%string = zero.
Proof.
  intros e.
  destruct (eager_Get_ignores_tombstones e "1"%string) as (_ & _ & Hreach & _).
  pose proof (Hreach [e1; e2] [LazySlice.CallRemove "1"%string] world0 world0) as H.
  destruct (H eq_refl) as [Htomb _].
  destruct (Htomb {| value := zero; status := Removed |} eq_refl (or_introl eq_refl))
    as (_ & H1 & H2).
  split; [exact H1|]. split; [exact H2|]. split.
  - exact (proj1 (eager_Get_ignores_tombstones e "2"%string)
             {| value := e2; status := Unchanged |} eq_refl).
  - exact (proj1 (proj2 (eager_Get_ignores_tombstones e "7"%string)) eq_refl).
Defined.

(** C10 on the eager collection: removing the loaded entity 1 reports it
    with the zero entity, not with [e1]. *)
Lemma Remove_tombstone_is_zero_witness :
  In {| change_ID := "1"%string; change_Value := zero; change_Status := Removed |}
     (Collect (Items (LazySlice.Changes (fst (LazySlice.Remove eager12 "1"%string)))))
  /\ linkedmap.Get "1"%string (LazySlice.fetched (fst (LazySlice.Remove eager12 "1"%string)))
     = Some {| value := zero; status := Removed |}.
Proof.
  pose proof (Remove_tombstone_is_zero eager12 "1"%string) as H.
  assert (Hprior : option_map (@status testEntity)
                     (linkedmap.Get "1"%string (LazySlice.fetched eager12))
                   <> Some Added) by (simpl; discriminate).
  destruct (H Hprior) as (H1 & H2 & _).
  split; [exact H2 | exact H1].
Defined.

(* ================================================================== *)
(** * Further properties of the scalar                                  *)
(* ================================================================== *)

Section ScalarFacts.
Context {T : Type} {zT : Zero T} {W : Type}.
Implicit Types (v : LazyScalar.t T W) (w : World W unit) (os : list (@scalar_op T)).

Lemma scalar_exec_loaded o v w :
  LazyScalar.isSet v = true ->
  exists v', scalar_exec o v w = Ret (v', w) /\ LazyScalar.isSet v' = true.
Proof.
  intros Hset. destruct o as [|x]; simpl.
  - unfold LazyScalar.Get. rewrite Hset. now exists v.
  - eexists. split; reflexivity.
Qed.

(** X1. A scalar that is set (built by [New], loaded once, or assigned)
    serves every sequence of [Get] and [Set] calls without calling the fetch
    function and without panicking, nil fetch function included; it stays
    set, and the eager accessor [Scalar.Get] returns what [Get] returns. *)
Theorem set_scalar_never_fetches v :
  LazyScalar.isSet v = true ->
  forall os w,
    exists v',
      scalar_run os v w = Ret (v', w)
      /\ LazyScalar.isSet v' = true
      /\ LazyScalar.Get v' w
         = Ret ((v', (Scalar.Get {| Scalar.embedded := v' |}, None)), w).
Proof.
  intros Hset os. revert v Hset.
  induction os as [|o os IH]; intros v Hset w; simpl.
  - exists v. repeat split; auto. unfold LazyScalar.Get. now rewrite Hset.
  - pose proof scalar_exec_loaded as L. specialize (L o v w Hset).
    destruct L as [v1 [E Hset1]]. rewrite E. now apply IH.
Qed.

(** X2. The first successful [Get] of an unset scalar calls the fetch once,
    returns and stores its result and leaves the dirty flag alone, so a
    loaded value is not a change; every later [Get] returns that value, in
    any world, without a call. *)
Theorem first_Get_caches v w f (x : T) (env1 : W) :
  LazyScalar.isSet v = false ->
  LazyScalar.fn v = Some f ->
  f tt (env w) = ((x, None), env1) ->
  exists v',
    LazyScalar.Get v w
    = Ret ((v', (x, None)), {| env := env1; calls := calls w ++ [tt] |})
    /\ LazyScalar.isDirty v' = LazyScalar.isDirty v
    /\ (LazyScalar.isDirty v = false -> LazyScalar.Change v' = None)
    /\ (forall w2, LazyScalar.Get v' w2 = Ret ((v', (x, None)), w2)).
Proof.
  intros Hunset Hfn Hcall. eexists. split.
  { unfold LazyScalar.Get, call. rewrite Hunset, Hfn, Hcall. reflexivity. }
  simpl. split; [reflexivity|]. split.
  - intros Hd. unfold LazyScalar.Change. simpl. now rewrite Hd.
  - intros w2. reflexivity.
Qed.

Lemma last_set_from (acc : option T) os :
  fold_left (fun a o => match o with ScalarSet x => Some x | ScalarGet => a end) os acc
  = match last_set os with
    | Some x => Some x
    | None => acc
    end.
Proof.
  unfold last_set. revert acc. induction os as [|o os IH]; intros acc; simpl.
  - reflexivity.
  - rewrite IH. rewrite (IH (match o with ScalarSet x => Some x | ScalarGet => None end)).
    destruct (fold_left _ os None); [reflexivity|]. destruct o; reflexivity.
Qed.

Lemma scalar_Get_keeps v w v' r w' :
  LazyScalar.Get v w = Ret ((v', r), w') ->
  LazyScalar.isDirty v' = LazyScalar.isDirty v
  /\ (LazyScalar.isSet v = true -> v' = v).
Proof.
  unfold LazyScalar.Get, call. destruct (LazyScalar.isSet v) eqn:Hset.
  - intros H; inversion H; subst. auto.
  - destruct (LazyScalar.fn v) as [f|]; [|discriminate].
    destruct (f tt (env w)) as [[x [err|]] env1]; intros H; inversion H; subst;
      simpl; split; auto; discriminate.
Qed.

(** X3. After any sequence of calls that returns, the scalar is dirty
    exactly when it was dirty before or a [Set] was among the calls.  When a
    [Set] was among them, the argument of the last one is the stored value:
    [Change] reports it and [Get] returns it without calling the fetch. *)
Theorem last_Set_wins os v w v' w' :
  scalar_run os v w = Ret (v', w') ->
  match last_set os with
  | Some x =>
      LazyScalar.isDirty v' = true
      /\ LazyScalar.Change v' = Some {| Value := x |}
      /\ (forall w2, LazyScalar.Get v' w2 = Ret ((v', (x, None)), w2))
  | None =>
      LazyScalar.isDirty v' = LazyScalar.isDirty v
      /\ (LazyScalar.isDirty v = false -> LazyScalar.Change v' = None)
  end.
Proof.
  assert (Hgen : forall os v w v' w' (acc : option T),
            match acc with
            | Some x => LazyScalar.isSet v = true /\ LazyScalar.isDirty v = true
                        /\ LazyScalar.value v = x
            | None => True
            end ->
            scalar_run os v w = Ret (v', w') ->
            match fold_left (fun a o => match o with ScalarSet x => Some x
                                                | ScalarGet => a end) os acc with
            | Some x => LazyScalar.isSet v' = true /\ LazyScalar.isDirty v' = true
                        /\ LazyScalar.value v' = x
            | None => LazyScalar.isDirty v' = LazyScalar.isDirty v
            end).
  { clear. intros os. induction os as [|o os IH]; intros v w v' w' acc Hacc; simpl.
    - intros H; inversion H; subst. destruct acc; auto.
    - destruct (scalar_exec o v w) as [[v1 w1]|] eqn:E; [|discriminate].
      intros Hrun. destruct o as [|x]; simpl in E.
      + destruct (LazyScalar.Get v w) as [[[v2 r] w2]|] eqn:G; [|discriminate].
        inversion E; subst. destruct (scalar_Get_keeps _ _ G) as [Hd Hsame].
        specialize (IH v1 w1 v' w' acc).
        destruct acc as [x|].
        * destruct Hacc as (Hs & Hdirty & Hv). rewrite (Hsame Hs) in *.
          apply IH; auto.
        * specialize (IH I Hrun).
          destruct (fold_left _ os None); [assumption | congruence].
      + inversion E; subst.
        specialize (IH (LazyScalar.Set_ v x) w1 v' w' (Some x)).
        simpl in IH. specialize (IH (conj eq_refl (conj eq_refl eq_refl)) Hrun).
        rewrite last_set_from in *. destruct (last_set os); exact IH. }
  intros Hrun. specialize (Hgen os v w v' w' None I Hrun).
  fold (last_set os) in Hgen. destruct (last_set os) as [x|].
  - destruct Hgen as (Hs & Hd & Hv). split; [assumption|]. split.
    + unfold LazyScalar.Change. now rewrite Hd, Hv.
    + intros w2. unfold LazyScalar.Get. now rewrite Hs, Hv.
  - split; [assumption|]. intros Hclean. unfold LazyScalar.Change.
    now rewrite Hgen, Hclean.
Qed.

End ScalarFacts.

Lemma scalar_run_total {T : Type} {zT : Zero T} {W : Type}
    (os : list (@scalar_op T)) (v : LazyScalar.t T W) (w : World W unit) :
  LazyScalar.isSet v = true \/ LazyScalar.fn v <> None ->
  exists v' w', scalar_run os v w = Ret (v', w').
Proof.
  revert v w. induction os as [|o os IH]; intros v w Hl; simpl.
  - eexists _, _. reflexivity.
  - destruct o as [|x]; simpl.
    + unfold LazyScalar.Get, call. destruct (LazyScalar.isSet v) eqn:Hset.
      * apply IH. now left.
      * destruct Hl as [Hl|Hl]; [discriminate|].
        destruct (LazyScalar.fn v) as [f|] eqn:Hfn; [|congruence].
        destruct (f tt (env w)) as [[x [err|]] env1].
        -- apply IH. right. congruence.
        -- apply IH. now left.
    + apply IH. now left.
Qed.

(* ================================================================== *)
(** * Further properties of the collection                              *)
(* ================================================================== *)

Section MoreMapFacts.
Context {K V : Type} {cmpK : comparable K}.
Implicit Types (m : linkedmap.Map K V) (k : K) (v : V).

Lemma Put_Put k v v' m :
  linkedmap.Put k v' (linkedmap.Put k v m) = linkedmap.Put k v' m.
Proof.
  induction m as [|[k0 v0] m IH]; simpl.
  - destruct (eq_dec k k); congruence.
  - destruct (eq_dec k0 k) as [E|N]; simpl.
    + destruct (eq_dec k k); congruence.
    + destruct (eq_dec k0 k); [contradiction|]. now rewrite IH.
Qed.

Lemma NoDup_Keys_filter (p : K * V -> bool) m :
  linkedmap.wf m -> NoDup (map fst (filter p m)).
Proof.
  unfold linkedmap.wf, linkedmap.Keys.
  induction m as [|e m IH]; simpl; intros Hnd; [constructor|].
  inversion Hnd as [|? ? Hnot Hnd']; subst.
  destruct (p e); simpl; [|auto].
  constructor; [|auto]. intros HIn. apply Hnot.
  apply in_map_iff in HIn. destruct HIn as [e' [E He']].
  apply filter_In in He'. rewrite <- E. apply in_map. tauto.
Qed.

End MoreMapFacts.

Section MoreSliceFacts.
Context {T I : Type} {idT : Identifiable T I} {cmpI : comparable I}
        {zT : Zero T} {zI : Zero I} {W : Type}.
Implicit Types (m : linkedmap.Map I (Item T)) (s : LazySlice.t T I W)
               (v x y : T) (k id : I) (w : World W I) (os : list (@LazySlice.op T I)).

(** X4. A loaded collection (built eagerly, loaded by [GetAll], or replaced
    by [SetAll] or [Clear]) serves every sequence of calls without calling
    the fetch function and without panicking, nil fetch function included;
    it stays loaded, and the eager [Slice.GetAll] is the sequence [GetAll]
    returns. *)
Theorem loaded_collection_never_fetches s :
  LazySlice.isSet s = true ->
  forall os w,
    exists s',
      LazySlice.run os s w = Ret (s', w)
      /\ LazySlice.isSet s' = true
      /\ LazySlice.GetAll s' w
         = Ret ((s', (Some (Slice.GetAll {| Slice.embedded := s' |}), None)), w).
Proof.
  intros Hset os. revert s Hset.
  induction os as [|o os IH]; intros s Hset w; simpl.
  - exists s. repeat split; auto. unfold LazySlice.GetAll. now rewrite Hset.
  - assert (Ht : exists s1 w1, LazySlice.exec o s w = Ret (s1, w1))
      by (apply exec_total; now left).
    destruct Ht as [s1 [w1 E]]. rewrite E.
    destruct (exec_Ret_cases _ _ _ E) as (_ & Hkeep & _).
    destruct (Hkeep Hset) as [Hset1 ->]. now apply IH.
Qed.

Lemma exec_isReset o s w s' w' :
  LazySlice.exec o s w = Ret (s', w') ->
  LazySlice.isReset s' = LazySlice.isReset s || resets o.
Proof.
  destruct o as [|id|xs|v| |id]; simpl.
  - unfold LazySlice.GetAll, call. destruct (LazySlice.isSet s).
    + intros H; inversion H; subst. now rewrite orb_false_r.
    + destruct (LazySlice.fn s) as [f|]; [|discriminate].
      destruct (f zero (env w)) as [[values [err|]] env1];
        intros H; inversion H; subst; simpl; now rewrite orb_false_r.
  - unfold LazySlice.Get, call.
    destruct (linkedmap.Get id (LazySlice.fetched s)) as [it|].
    + destruct (Status_eqb (status it) Absent || Status_eqb (status it) Removed);
        intros H; inversion H; subst; now rewrite orb_false_r.
    + destruct (LazySlice.isSet s).
      * intros H; inversion H; subst. now rewrite orb_false_r.
      * destruct (LazySlice.fn s) as [f|]; [|discriminate].
        destruct (f id (env w)) as [[[|v0 values] [err|]] env1];
          intros H; inversion H; subst; simpl; now rewrite orb_false_r.
  - intros H; inversion H; subst. simpl. now rewrite orb_true_r.
  - intros H; inversion H; subst. destruct (Set_flags s v) as (_ & F & _).
    rewrite F. now rewrite orb_false_r.
  - intros H; inversion H; subst. simpl. now rewrite orb_true_r.
  - intros H; inversion H; subst. destruct (Remove_flags s id) as (_ & F & _).
    rewrite F. now rewrite orb_false_r.
Qed.

(** X5. After any sequence of calls that returns, [IsReset()] and the
    [Reset] flag of [Changes()] are true exactly when the collection was
    reset before or [SetAll] or [Clear] was among the calls: no call clears
    the flag, and no other call sets it. *)
Theorem IsReset_iff_reset_call os s w s' w' :
  LazySlice.run os s w = Ret (s', w') ->
  LazySlice.IsReset s' = LazySlice.isReset s || existsb resets os
  /\ Reset (LazySlice.Changes s') = LazySlice.IsReset s'.
Proof.
  intros Hrun. split; [|reflexivity]. unfold LazySlice.IsReset.
  revert s w Hrun. induction os as [|o os IH]; intros s w; simpl.
  - intros H; inversion H; subst. now rewrite orb_false_r.
  - destruct (LazySlice.exec o s w) as [[s1 w1]|] eqn:E; [|discriminate].
    intros Hrun. rewrite (IH _ _ Hrun), (exec_isReset _ _ _ E).
    now rewrite orb_assoc.
Qed.

Lemma Set_as_Put s v :
  LazySlice.Set_ s v
  = LazySlice.with_fetched s (LazySlice.fetched (LazySlice.Set_ s v)).
Proof.
  unfold LazySlice.Set_.
  destruct (linkedmap.Get (ID v) (LazySlice.fetched s)); reflexivity.
Qed.

Lemma Remove_as_Put s id :
  fst (LazySlice.Remove s id)
  = LazySlice.with_fetched s (LazySlice.fetched (fst (LazySlice.Remove s id))).
Proof.
  unfold LazySlice.Remove.
  destruct (linkedmap.Get id (LazySlice.fetched s)) as [it|]; [|reflexivity].
  destruct (Status_eqb (status it) Added); reflexivity.
Qed.

(** X6. Reads see the local writes, without a fetch: after [Set(v)],
    [Get(v.ID())] returns [v]; after [Remove(id)] of an identity that was
    untracked or tracked with a status other than [Added], [Get(id)] is
    [ErrNotFound]; both whatever the loaded flag and the fetch function
    are.  After [Remove(id)] cancelled an [Added] entry the identity is
    untracked again: [Get(id)] is [ErrNotFound] on a loaded collection and
    asks the fetch function on one that is not loaded. *)
Theorem reads_see_local_writes s w :
  (forall v,
     LazySlice.Get (LazySlice.Set_ s v) (ID v) w
     = Ret ((LazySlice.Set_ s v, (v, None)), w))
  /\ (forall id,
        option_map (@status T) (linkedmap.Get id (LazySlice.fetched s)) <> Some Added ->
        LazySlice.Get (fst (LazySlice.Remove s id)) id w
        = Ret ((fst (LazySlice.Remove s id), (zero, Some ErrNotFound)), w))
  /\ (forall id,
        option_map (@status T) (linkedmap.Get id (LazySlice.fetched s)) = Some Added ->
        (LazySlice.isSet s = true ->
         LazySlice.Get (fst (LazySlice.Remove s id)) id w
         = Ret ((fst (LazySlice.Remove s id), (zero, Some ErrNotFound)), w))
        /\ (forall f, LazySlice.isSet s = false -> LazySlice.fn s = Some f ->
              exists r w', LazySlice.Get (fst (LazySlice.Remove s id)) id w = Ret (r, w')
                           /\ calls w' = calls w ++ [id])).
Proof.
  split; [|split].
  - intros v. unfold LazySlice.Get. rewrite fetched_Set_, Get_Put_eq. simpl.
    destruct (linkedmap.Get (ID v) (LazySlice.fetched s)) as [it|];
      [destruct (status it)|]; reflexivity.
  - intros id Hprior. unfold LazySlice.Get. rewrite fetched_Remove.
    destruct (linkedmap.Get id (LazySlice.fetched s)) as [it|] eqn:E.
    + destruct (Status_eqb (status it) Added) eqn:A.
      * apply Status_eqb_eq in A. simpl in Hprior. congruence.
      * now rewrite Get_Put_eq.
    + now rewrite Get_Put_eq.
  - intros id Hprior.
    destruct (linkedmap.Get id (LazySlice.fetched s)) as [it|] eqn:E; [|discriminate].
    simpl in Hprior. assert (A : status it = Added) by congruence.
    destruct (Remove_flags s id) as (F1 & _ & F3).
    assert (Hnone : linkedmap.Get id (LazySlice.fetched (fst (LazySlice.Remove s id))) = None).
    { rewrite fetched_Remove, E, (proj2 (Status_eqb_eq _ _) A). apply Get_Delete_eq. }
    split.
    + intros Hset. unfold LazySlice.Get. now rewrite Hnone, F1, Hset.
    + intros f Hunset Hfn. unfold LazySlice.Get, call.
      rewrite Hnone, F1, Hunset, F3, Hfn.
      destruct (f id (env w)) as [[[|v0 values] [err|]] env1];
        eexists _, _; split; reflexivity.
Qed.

(** X7. Two [Set]s of one identity: the second value replaces the first
    and the status is the one a single [Set] gives, so the state is the one
    [Set] of the second value alone leaves. *)
Theorem Set_last_write_wins s x y :
  ID x = ID y -> LazySlice.Set_ (LazySlice.Set_ s x) y = LazySlice.Set_ s y.
Proof.
  intros E. rewrite (Set_as_Put (LazySlice.Set_ s x) y), (Set_as_Put s y).
  rewrite (fetched_Set_ (LazySlice.Set_ s x) y), (fetched_Set_ s y).
  rewrite (Set_as_Put s x) at 3. unfold LazySlice.with_fetched at 1 3. simpl.
  rewrite (fetched_Set_ s x), <- E, Get_Put_eq, Put_Put. simpl.
  destruct (Set_flags s x) as (F1 & F2 & F3).
  unfold LazySlice.with_fetched. rewrite F1, F2, F3.
  destruct (linkedmap.Get (ID x) (LazySlice.fetched s)) as [it|];
    [destruct (status it)|]; reflexivity.
Qed.

(** X8. A second [Remove(id)] changes nothing and returns true when the
    first one left a tombstone (the identity was untracked, or tracked with
    a status other than [Added]).  When the first one cancelled an [Added]
    entry, the second finds the identity untracked: it returns false and
    records a [Removed] tombstone for it. *)
Theorem Remove_twice s id :
  (option_map (@status T) (linkedmap.Get id (LazySlice.fetched s)) <> Some Added ->
   LazySlice.Remove (fst (LazySlice.Remove s id)) id
   = (fst (LazySlice.Remove s id), true))
  /\ (option_map (@status T) (linkedmap.Get id (LazySlice.fetched s)) = Some Added ->
      snd (LazySlice.Remove s id) = true
      /\ linkedmap.Get id (LazySlice.fetched (fst (LazySlice.Remove s id))) = None
      /\ snd (LazySlice.Remove (fst (LazySlice.Remove s id)) id) = false
      /\ linkedmap.Get id
           (LazySlice.fetched (fst (LazySlice.Remove (fst (LazySlice.Remove s id)) id)))
         = Some {| value := zero; status := Removed |}).
Proof.
  split.
  - intros Hprior.
    assert (Hf : LazySlice.fetched (fst (LazySlice.Remove s id))
                 = linkedmap.Put id {| value := zero; status := Removed |}
                     (LazySlice.fetched s)).
    { rewrite fetched_Remove.
      destruct (linkedmap.Get id (LazySlice.fetched s)) as [it|]; [|reflexivity].
      destruct (Status_eqb (status it) Added) eqn:A; [|reflexivity].
      apply Status_eqb_eq in A. simpl in Hprior. congruence. }
    pose proof (Remove_as_Put s id) as Hs1. rewrite Hf in Hs1. rewrite Hs1.
    unfold LazySlice.Remove. simpl. rewrite Get_Put_eq. simpl.
    rewrite Put_Put. reflexivity.
  - intros Hprior.
    destruct (linkedmap.Get id (LazySlice.fetched s)) as [it|] eqn:E; [|discriminate].
    simpl in Hprior. assert (A : status it = Added) by congruence.
    assert (Hnone : linkedmap.Get id (LazySlice.fetched (fst (LazySlice.Remove s id))) = None).
    { rewrite fetched_Remove, E, (proj2 (Status_eqb_eq _ _) A). apply Get_Delete_eq. }
    split; [|split; [exact Hnone|split]].
    + unfold LazySlice.Remove. now rewrite E, (proj2 (Status_eqb_eq _ _) A).
    + unfold LazySlice.Remove at 1. now rewrite Hnone.
    + rewrite fetched_Remove, Hnone. apply Get_Put_eq.
Qed.

(** X9. [Remove(x.ID())] followed by [Set(x)]: when the identity was
    untracked or tracked with a status other than [Added], it ends as
    [Modified] holding [x], never [Added], and a tracked identity keeps its
    place in the store; when it was [Added], it ends as [Added] holding [x],
    moved behind every other entry. *)
Theorem Remove_then_Set s x :
  let s2 := LazySlice.Set_ (fst (LazySlice.Remove s (ID x))) x in
  (option_map (@status T) (linkedmap.Get (ID x) (LazySlice.fetched s)) <> Some Added ->
   linkedmap.Get (ID x) (LazySlice.fetched s2)
   = Some {| value := x; status := Modified |}
   /\ (linkedmap.Get (ID x) (LazySlice.fetched s) <> None ->
       linkedmap.Keys (LazySlice.fetched s2) = linkedmap.Keys (LazySlice.fetched s)))
  /\ (option_map (@status T) (linkedmap.Get (ID x) (LazySlice.fetched s)) = Some Added ->
      LazySlice.fetched s2
      = linkedmap.Delete (ID x) (LazySlice.fetched s)
          ++ [(ID x, {| value := x; status := Added |})]).
Proof.
  intros s2. split.
  - intros Hprior.
    assert (Hf : LazySlice.fetched (fst (LazySlice.Remove s (ID x)))
                 = linkedmap.Put (ID x) {| value := zero; status := Removed |}
                     (LazySlice.fetched s)).
    { rewrite fetched_Remove.
      destruct (linkedmap.Get (ID x) (LazySlice.fetched s)) as [it|]; [|reflexivity].
      destruct (Status_eqb (status it) Added) eqn:A; [|reflexivity].
      apply Status_eqb_eq in A. simpl in Hprior. congruence. }
    assert (Hs2 : LazySlice.fetched s2
                  = linkedmap.Put (ID x) {| value := x; status := Modified |}
                      (LazySlice.fetched s)).
    { unfold s2. rewrite fetched_Set_, Hf, Get_Put_eq. simpl. apply Put_Put. }
    split.
    + rewrite Hs2. apply Get_Put_eq.
    + intros Htracked. rewrite Hs2.
      destruct (linkedmap.Get (ID x) (LazySlice.fetched s)) as [it|] eqn:E;
        [|congruence].
      eapply Keys_Put_tracked. eassumption.
  - intros Hprior.
    destruct (linkedmap.Get (ID x) (LazySlice.fetched s)) as [it|] eqn:E; [|discriminate].
    simpl in Hprior. assert (A : status it = Added) by congruence.
    assert (Hf : LazySlice.fetched (fst (LazySlice.Remove s (ID x)))
                 = linkedmap.Delete (ID x) (LazySlice.fetched s)).
    { now rewrite fetched_Remove, E, (proj2 (Status_eqb_eq _ _) A). }
    unfold s2. rewrite fetched_Set_, Hf, Get_Delete_eq.
    apply Put_untracked, Get_Delete_eq.
Qed.

Lemma filter_changed_app (m1 m2 : linkedmap.Map I (Item T)) :
  filter changed (m1 ++ m2) = filter changed m1 ++ filter changed m2.
Proof. apply filter_app. Qed.

(** X10. A point lookup that loads: on a collection that is not loaded,
    [Get(id)] of an untracked identity whose fetch answers with a value of
    that identity returns the value and tracks it as [Unchanged] behind the
    existing entries.  Every entry tracked before is kept, the changeset is
    the same, the collection is still not loaded, and every later [Get(id)]
    returns the value without a call. *)
Theorem lazy_Get_caches_and_preserves s id w f (v0 : T) (rest : list T) (env1 : W) :
  linkedmap.Get id (LazySlice.fetched s) = None ->
  LazySlice.isSet s = false ->
  LazySlice.fn s = Some f ->
  f id (env w) = ((v0 :: rest, None), env1) ->
  ID v0 = id ->
  exists s1,
    LazySlice.Get s id w
    = Ret ((s1, (v0, None)), {| env := env1; calls := calls w ++ [id] |})
    /\ LazySlice.fetched s1
       = LazySlice.fetched s ++ [(id, {| value := v0; status := Unchanged |})]
    /\ (forall k it, linkedmap.Get k (LazySlice.fetched s) = Some it ->
                     linkedmap.Get k (LazySlice.fetched s1) = Some it)
    /\ Collect (Items (LazySlice.Changes s1)) = Collect (Items (LazySlice.Changes s))
    /\ LazySlice.isSet s1 = false
    /\ (forall w2, LazySlice.Get s1 id w2 = Ret ((s1, (v0, None)), w2)).
Proof.
  intros Hnone Hunset Hfn Hcall Hid. eexists. split.
  { unfold LazySlice.Get, call. rewrite Hnone, Hunset, Hfn, Hcall. reflexivity. }
  simpl. rewrite Hid.
  assert (Hp : linkedmap.Put id {| value := v0; status := Unchanged |} (LazySlice.fetched s)
               = LazySlice.fetched s ++ [(id, {| value := v0; status := Unchanged |})])
    by now apply Put_untracked.
  split; [exact Hp|]. split; [|split; [|split]].
  - intros k it Hk. rewrite Get_Put_ne; [assumption | congruence].
  - rewrite !Collect_changesIterator. simpl. rewrite Hp, filter_changed_app. simpl.
    now rewrite app_nil_r.
  - assumption.
  - intros w2. unfold LazySlice.Get. simpl. now rewrite Get_Put_eq.
Qed.

(** *** The shape of the store after a load *)

Lemma map_fix {A : Type} (g : A -> A) (l : list A) :
  (forall a, In a l -> g a = a) -> map g l = l.
Proof.
  intros H. induction l as [|a l IH]; simpl; [reflexivity|].
  rewrite H by now left. f_equal. apply IH. intros b Hb. apply H. now right.
Qed.

Lemma fresh_ext (values : list T) (seen seen' : list I) :
  (forall k, In k seen <-> In k seen') -> fresh seen values = fresh seen' values.
Proof.
  revert seen seen'. induction values as [|v values IH]; intros seen seen' Heq; simpl.
  - reflexivity.
  - destruct (in_dec eq_dec (ID v) seen) as [H|H],
             (in_dec eq_dec (ID v) seen') as [H'|H'].
    + now apply IH.
    + exfalso. apply H'. now apply Heq.
    + exfalso. apply H. now apply Heq.
    + f_equal. apply IH. intros k. simpl. rewrite (Heq k). tauto.
Qed.

Lemma fresh_distinct (values : list T) (seen : list I) :
  NoDup (map ID values) ->
  (forall v, In v values -> ~ In (ID v) seen) ->
  fresh seen values = values.
Proof.
  revert seen. induction values as [|v values IH]; intros seen Hnd Hnot; simpl.
  - reflexivity.
  - inversion Hnd as [|? ? Hv Hnd']; subst.
    destruct (in_dec eq_dec (ID v) seen) as [H|H].
    + exfalso. apply (Hnot v); [now left | assumption].
    + f_equal. apply IH; [assumption|].
      intros v' HIn [E|HIn'].
      * apply Hv. rewrite E. now apply in_map.
      * apply (Hnot v'); [now right | assumption].
Qed.

Lemma fst_upgrade (values : list T) (e : I * Item T) : fst (upgrade values e) = fst e.
Proof.
  unfold upgrade.
  destruct (Status_eqb (status (snd e)) Added && existsb (has_id (fst e)) values);
    reflexivity.
Qed.

Lemma Keys_map_upgrade (values : list T) m :
  linkedmap.Keys (map (upgrade values) m) = linkedmap.Keys m.
Proof.
  unfold linkedmap.Keys. rewrite map_map. apply map_ext. apply fst_upgrade.
Qed.

Lemma upgrade_untouched (values : list T) (e : I * Item T) :
  status (snd e) <> Added \/ existsb (has_id (fst e)) values = false ->
  upgrade values e = e.
Proof.
  intros H. unfold upgrade. destruct H as [H|H].
  - apply Status_eqb_neq in H. now rewrite H.
  - rewrite H. now rewrite andb_false_r.
Qed.

Lemma upgrade_cons v (values : list T) (e : I * Item T) :
  upgrade values (upgrade [v] e) = upgrade (v :: values) e.
Proof.
  unfold upgrade at 2 3. simpl. rewrite orb_false_r.
  destruct (Status_eqb (status (snd e)) Added) eqn:A; simpl.
  - destruct (has_id (fst e) v) eqn:Hv; simpl.
    + apply upgrade_untouched. left. simpl. discriminate.
    + unfold upgrade. now rewrite A.
  - apply upgrade_untouched. left. now apply Status_eqb_neq.
Qed.

Lemma has_id_false k v : ID v <> k -> has_id k v = false.
Proof. intros N. unfold has_id. destruct (eq_dec (ID v) k); congruence. Qed.

Lemma has_id_true v : has_id (ID v) v = true.
Proof. unfold has_id. destruct (eq_dec (ID v) (ID v)); congruence. Qed.

Lemma Put_as_map k (it it' : Item T) m :
  linkedmap.wf m -> linkedmap.Get k m = Some it ->
  linkedmap.Put k it' m
  = map (fun e => if eq_dec (fst e) k then (k, it') else e) m.
Proof.
  unfold linkedmap.wf. induction m as [|[k0 it0] m IH]; simpl; [discriminate|].
  intros Hnd Hget. inversion Hnd as [|? ? Hnot Hnd']; subst.
  destruct (eq_dec k0 k) as [E|N].
  - subst k0. f_equal. symmetry. apply map_fix.
    intros e He. destruct (eq_dec (fst e) k) as [E|]; [|reflexivity].
    exfalso. apply Hnot. rewrite <- E. now apply in_map.
  - f_equal. now apply IH.
Qed.

Lemma merge_tracked m v it :
  linkedmap.wf m -> linkedmap.Get (ID v) m = Some it ->
  LazySlice.merge m v = map (upgrade [v]) m.
Proof.
  intros Hwf Hget. unfold LazySlice.merge. rewrite Hget.
  destruct (Status_eqb (status it) Added) eqn:A.
  - erewrite Put_as_map by eassumption. apply map_ext_in. intros [k0 it0] He. simpl.
    destruct (eq_dec k0 (ID v)) as [E|N].
    + subst k0. assert (E : linkedmap.Get (ID v) m = Some it0) by now apply In_Get.
      rewrite Hget in E. inversion E; subst it0.
      unfold upgrade. simpl. now rewrite A, has_id_true.
    + symmetry. apply upgrade_untouched. right. simpl.
      rewrite has_id_false by congruence. reflexivity.
  - symmetry. apply map_fix. intros [k0 it0] He.
    apply upgrade_untouched. simpl.
    destruct (eq_dec k0 (ID v)) as [E|N].
    + subst k0. assert (E : linkedmap.Get (ID v) m = Some it0) by now apply In_Get.
      rewrite Hget in E. inversion E; subst it0.
      left. now apply Status_eqb_neq.
    + right. rewrite has_id_false by congruence. reflexivity.
Qed.

(** The merge keeps every old entry in place, turning the fetched [Added]
    ones into [Modified], and appends the fresh fetched values as
    [Unchanged], in fetch order. *)
Lemma merge_structure (values : list T) m :
  linkedmap.wf m ->
  fold_left LazySlice.merge values m
  = map (upgrade values) m ++ map unchanged_entry (fresh (linkedmap.Keys m) values).
Proof.
  revert m. induction values as [|v values IH]; intros m Hwf; simpl.
  - rewrite app_nil_r. symmetry. apply map_fix.
    intros e _. apply upgrade_untouched. now right.
  - rewrite IH by now apply wf_merge.
    destruct (linkedmap.Get (ID v) m) as [it|] eqn:Hget.
    + erewrite merge_tracked by eassumption. rewrite Keys_map_upgrade, map_map.
      destruct (in_dec eq_dec (ID v) (linkedmap.Keys m)) as [HIn|Hnot].
      * f_equal. apply map_ext. intros e. apply upgrade_cons.
      * exfalso. apply Get_None_Keys in Hnot. congruence.
    + assert (Hm : LazySlice.merge m v = m ++ [unchanged_entry v]).
      { unfold LazySlice.merge. rewrite Hget. now apply Put_untracked. }
      rewrite Hm, map_app. simpl.
      destruct (in_dec eq_dec (ID v) (linkedmap.Keys m)) as [HIn|Hnot].
      * exfalso. now apply Get_None_Keys in Hget.
      * rewrite <- app_assoc. simpl. f_equal.
        -- apply map_ext_in. intros e He. rewrite <- upgrade_cons. f_equal.
           symmetry. apply upgrade_untouched. right. simpl.
           rewrite has_id_false; [reflexivity|].
           intros E. apply Hnot. rewrite E. now apply (in_map fst).
        -- do 2 f_equal. apply fresh_ext. intros k.
           unfold linkedmap.Keys. rewrite map_app, in_app_iff. simpl. tauto.
Qed.

Lemma upgrade_keeps (values : list T) (e : I * Item T) :
  value (snd (upgrade values e)) = value (snd e)
  /\ live (snd (upgrade values e)) = live (snd e)
  /\ changed (upgrade values e) = changed e
  /\ to_change (upgrade values e) = upgrade_change values (to_change e).
Proof.
  unfold upgrade, upgrade_change, to_change, live, changed. simpl.
  destruct (Status_eqb (status (snd e)) Added) eqn:A; simpl; [|auto].
  apply Status_eqb_eq in A.
  destruct (existsb (has_id (fst e)) values); simpl; rewrite ?A; auto.
Qed.

Lemma live_values_upgrade (values : list T) m :
  map (@value T) (filter live (map snd (map (upgrade values) m)))
  = map (@value T) (filter live (map snd m)).
Proof.
  induction m as [|e m IH]; simpl; [reflexivity|].
  destruct (upgrade_keeps values e) as (Hv & Hl & _).
  rewrite Hl. destruct (live (snd e)); simpl; [rewrite Hv|]; now rewrite IH.
Qed.

Lemma live_values_unchanged (l : list T) :
  map (@value T) (filter live (map snd (map unchanged_entry l))) = l.
Proof. induction l as [|v l IH]; simpl; [reflexivity | now rewrite IH]. Qed.

Lemma changes_upgrade (values : list T) m :
  map to_change (filter changed (map (upgrade values) m))
  = map (upgrade_change values) (map to_change (filter changed m)).
Proof.
  induction m as [|e m IH]; simpl; [reflexivity|].
  destruct (upgrade_keeps values e) as (_ & _ & Hc & Ht).
  rewrite Hc. destruct (changed e); simpl; [rewrite Ht|]; now rewrite IH.
Qed.

Lemma changes_unchanged (l : list T) : filter changed (map unchanged_entry l) = [].
Proof. induction l as [|v l IH]; simpl; [reflexivity | exact IH]. Qed.

(** X11. A successful load keeps the store in order: every entry tracked
    before stays where it was (a fetched [Added] one becoming [Modified]),
    and the fetched values that are new are appended as [Unchanged], in
    fetch order, first value per identity.  So the live view after the load
    is the live view before it followed by those new values. *)
Theorem GetAll_keeps_order_and_appends s w f (values : list T) (env1 : W) :
  linkedmap.wf (LazySlice.fetched s) ->
  LazySlice.isSet s = false ->
  LazySlice.fn s = Some f ->
  f zero (env w) = ((values, None), env1) ->
  exists s' seq,
    LazySlice.GetAll s w
    = Ret ((s', (Some seq, None)), {| env := env1; calls := calls w ++ [zero] |})
    /\ LazySlice.fetched s'
       = map (upgrade values) (LazySlice.fetched s)
         ++ map unchanged_entry (fresh (linkedmap.Keys (LazySlice.fetched s)) values)
    /\ Collect seq
       = Collect (filterRemoved (linkedmap.Values (LazySlice.fetched s)))
         ++ fresh (linkedmap.Keys (LazySlice.fetched s)) values.
Proof.
  intros Hwf Hunset Hfn Hcall. eexists _, _. split.
  { unfold LazySlice.GetAll, call. rewrite Hunset, Hfn, Hcall. reflexivity. }
  simpl. split; [now apply merge_structure|].
  rewrite !Collect_filterRemoved, merge_structure by assumption.
  rewrite map_app, filter_app, map_app.
  now rewrite live_values_upgrade, live_values_unchanged.
Qed.

(** X12. A successful load neither adds nor drops a pending change: the
    changeset after it is the changeset before it, item by item in the same
    order with the same values, where an [Added] item whose identity was
    fetched is now [Modified]. *)
Theorem GetAll_preserves_pending_changes s w f (values : list T) (env1 : W) :
  linkedmap.wf (LazySlice.fetched s) ->
  LazySlice.isSet s = false ->
  LazySlice.fn s = Some f ->
  f zero (env w) = ((values, None), env1) ->
  exists s' r,
    LazySlice.GetAll s w
    = Ret ((s', r), {| env := env1; calls := calls w ++ [zero] |})
    /\ Collect (Items (LazySlice.Changes s'))
       = map (upgrade_change values) (Collect (Items (LazySlice.Changes s))).
Proof.
  intros Hwf Hunset Hfn Hcall. eexists _, _. split.
  { unfold LazySlice.GetAll, call. rewrite Hunset, Hfn, Hcall. reflexivity. }
  simpl. rewrite !Collect_changesIterator. simpl.
  rewrite merge_structure by assumption.
  rewrite filter_app, map_app, changes_unchanged, changes_upgrade. simpl.
  now rewrite app_nil_r.
Qed.

(** X13. The first load of a fresh lazy collection yields the fetched
    values, first value per identity, in fetch order (the fetched list
    itself when its identities are pairwise distinct), and leaves nothing to
    persist: no change item, no reset. *)
Theorem fresh_collection_loads_baseline w f (values : list T) (env1 : W) :
  f zero (env w) = ((values, None), env1) ->
  exists s' seq,
    LazySlice.GetAll (NewLazySlice (Some f)) w
    = Ret ((s', (Some seq, None)), {| env := env1; calls := calls w ++ [zero] |})
    /\ Collect seq = fresh [] values
    /\ (NoDup (map ID values) -> Collect seq = values)
    /\ Collect (Items (LazySlice.Changes s')) = []
    /\ Reset (LazySlice.Changes s') = false.
Proof.
  intros Hcall. eexists _, _. split.
  { unfold LazySlice.GetAll, call. simpl. rewrite Hcall. reflexivity. }
  simpl.
  assert (Hl : Collect (filterRemoved
                 (linkedmap.Values (fold_left LazySlice.merge values linkedmap.New)))
               = fresh [] values).
  { rewrite Collect_filterRemoved, merge_structure by apply wf_New.
    simpl. apply live_values_unchanged. }
  split; [exact Hl|]. split; [|split; [|reflexivity]].
  - intros Hnd. rewrite Hl. apply fresh_distinct; [assumption|]. intros v _ [].
  - rewrite Collect_changesIterator. simpl.
    rewrite merge_structure by apply wf_New. simpl.
    now rewrite changes_unchanged.
Qed.

Lemma constructed_inv s0 :
  (exists fn0, s0 = NewLazySlice fn0)
  \/ (exists xs : list T, s0 = Slice.embedded (NewSlice xs)) ->
  linkedmap.wf (LazySlice.fetched s0) /\ tomb_inv (LazySlice.fetched s0).
Proof.
  intros [[fn0 ->]|[xs ->]]; simpl.
  - split; [apply wf_New | apply tomb_inv_New].
  - split; [apply wf_put_each, wf_New|].
    apply tomb_inv_put_each; [discriminate | discriminate | apply tomb_inv_New].
Qed.

(** X14. On every state that a sequence of calls reaches from a
    constructor, a change item with status [Removed] or [Absent] carries the
    zero value: the changeset never holds the value a removed identity
    had. *)
Theorem tombstones_carry_zero_value os s0 w s' w' :
  (exists fn0, s0 = NewLazySlice fn0)
  \/ (exists xs : list T, s0 = Slice.embedded (NewSlice xs)) ->
  LazySlice.run os s0 w = Ret (s', w') ->
  forall c, In c (Collect (Items (LazySlice.Changes s'))) ->
            change_Status c = Removed \/ change_Status c = Absent ->
            change_Value c = zero.
Proof.
  intros Hinit Hrun c Hc Hst.
  assert (Htomb : tomb_inv (LazySlice.fetched s')).
  { eapply (run_preserves (fun s1 => tomb_inv (LazySlice.fetched s1)));
      [intros; eapply exec_tomb_inv; eauto | | exact Hrun].
    now apply constructed_inv. }
  apply In_Collect_Changes in Hc. destruct Hc as [k [it [HIn [_ ->]]]].
  simpl in *. now apply (Htomb k it).
Qed.

(** X15. On every state that a sequence of calls reaches from a
    constructor, the changeset names each identity at most once. *)
Theorem Changes_reports_each_identity_once os s0 w s' w' :
  (exists fn0, s0 = NewLazySlice fn0)
  \/ (exists xs : list T, s0 = Slice.embedded (NewSlice xs)) ->
  LazySlice.run os s0 w = Ret (s', w') ->
  NoDup (map (@change_ID I T) (Collect (Items (LazySlice.Changes s')))).
Proof.
  intros Hinit Hrun.
  assert (Hwf : linkedmap.wf (LazySlice.fetched s')).
  { eapply run_wf; [|exact Hrun]. now apply constructed_inv. }
  simpl. rewrite Collect_changesIterator, map_map. simpl.
  now apply NoDup_Keys_filter.
Qed.

(** X18. [Get(id)] trusts the fetch: it returns the first fetched value
    whatever its identity and tracks it as [Unchanged] under that value's
    own identity.  When that identity is not [id], [id] itself stays
    untracked, and whatever was tracked under the value's identity, a
    pending removal or edit included, is replaced. *)
Theorem Get_records_under_the_fetched_identity
    s id w f (v0 : T) (rest : list T) (env1 : W) :
  linkedmap.Get id (LazySlice.fetched s) = None ->
  LazySlice.isSet s = false ->
  LazySlice.fn s = Some f ->
  f id (env w) = ((v0 :: rest, None), env1) ->
  ID v0 <> id ->
  exists s1,
    LazySlice.Get s id w
    = Ret ((s1, (v0, None)), {| env := env1; calls := calls w ++ [id] |})
    /\ linkedmap.Get id (LazySlice.fetched s1) = None
    /\ linkedmap.Get (ID v0) (LazySlice.fetched s1)
       = Some {| value := v0; status := Unchanged |}
    /\ (forall k, k <> ID v0 ->
          linkedmap.Get k (LazySlice.fetched s1) = linkedmap.Get k (LazySlice.fetched s))
    /\ (linkedmap.wf (LazySlice.fetched s) ->
        forall c, In c (Collect (Items (LazySlice.Changes s1))) ->
                  change_ID c <> ID v0).
Proof.
  intros Hnone Hunset Hfn Hcall Hid. eexists. split.
  { unfold LazySlice.Get, call. rewrite Hnone, Hunset, Hfn, Hcall. reflexivity. }
  simpl. split; [|split; [|split]].
  - rewrite Get_Put_ne by congruence. assumption.
  - apply Get_Put_eq.
  - intros k N. now apply Get_Put_ne.
  - intros Hwf c Hc E.
    match type of Hc with
    | In _ (Collect (LazySlice.changesIterator ?s1)) =>
        apply (proj1 (In_Collect_Changes s1 c)) in Hc
    end.
    destruct Hc as [k [it [HIn [Hst ->]]]]. simpl in *. subst k.
    apply In_Get in HIn; [|now apply wf_Put].
    rewrite Get_Put_eq in HIn. inversion HIn; subst it. now apply Hst.
Qed.

Lemma filter_none {A : Type} (p : A -> bool) (l : list A) :
  (forall a, In a l -> p a = false) -> filter p l = [].
Proof.
  intros H. induction l as [|a l IH]; simpl; [reflexivity|].
  rewrite H by now left. apply IH. intros b Hb. apply H. now right.
Qed.

(** X16. A collection built eagerly from [xs] is loaded, not reset and has
    an empty changeset.  [Slice.Get] finds every identity of [xs] (the last
    value of [xs] with it) and answers the zero value for any other; when
    the identities of [xs] are pairwise distinct, [Slice.GetAll] yields [xs]
    itself and [Slice.Get] each of its values. *)
Theorem NewSlice_is_clean (xs : list T) :
  let e : Slice.t T I W := NewSlice xs in
  LazySlice.isSet (Slice.embedded e) = true
  /\ LazySlice.IsReset (Slice.embedded e) = false
  /\ Collect (Items (LazySlice.Changes (Slice.embedded e))) = []
  /\ (forall v, In v xs ->
        exists v', find (has_id (ID v)) (rev xs) = Some v' /\ Slice.Get e (ID v) = v')
  /\ (forall id, ~ In id (map ID xs) -> Slice.Get e id = zero)
  /\ (NoDup (map ID xs) ->
      Collect (Slice.GetAll e) = xs
      /\ forall v, In v xs -> Slice.Get e (ID v) = v).
Proof.
  intros e. split; [reflexivity|]. split; [reflexivity|].
  assert (Hget : forall k, linkedmap.Get k (LazySlice.fetched (Slice.embedded e))
                 = match find (has_id k) (rev xs) with
                   | Some v' => Some {| value := v'; status := Unchanged |}
                   | None => None
                   end).
  { intros k. unfold e. simpl. now rewrite Get_put_each. }
  split; [|split; [|split]].
  - simpl. rewrite Collect_changesIterator.
    rewrite filter_none; [reflexivity|].
    intros [k it] HIn. simpl in HIn. apply In_put_each in HIn.
    destruct HIn as [[]|(Hst & _)]. unfold changed. simpl. now rewrite Hst.
  - intros v HIn.
    assert (HIn' : In v (rev xs)) by now apply in_rev in HIn.
    destruct (find_has_id_In _ _ HIn') as [v' [Hfind _]].
    exists v'. split; [assumption|]. unfold Slice.Get. now rewrite Hget, Hfind.
  - intros id Hnot. unfold Slice.Get. rewrite Hget, find_has_id_None; [reflexivity|].
    rewrite map_rev, <- in_rev. assumption.
  - intros Hnd.
    assert (Hf : LazySlice.fetched (Slice.embedded e) = map unchanged_entry xs).
    { unfold e. simpl. now rewrite put_each_distinct. }
    split.
    + unfold Slice.GetAll. rewrite Collect_filterRemoved, Hf.
      apply live_values_unchanged.
    + intros v HIn. unfold Slice.Get.
      assert (Hv : linkedmap.Get (ID v) (LazySlice.fetched (Slice.embedded e))
                   = Some {| value := v; status := Unchanged |}).
      { apply In_Get.
        - unfold e. simpl. apply wf_put_each, wf_New.
        - rewrite Hf. apply in_map_iff. now exists v. }
      now rewrite Hv.
Qed.

End MoreSliceFacts.

(* ================================================================== *)
(** * example/domain: a car and its odometer                            *)
(* ================================================================== *)

Section CarFacts.
Context {UUID W : Type}.
Variable intSize : Z.
Local Open Scope Z_scope.

Lemma wrap_int_add (a b : Z) :
  wrap_int intSize (wrap_int intSize a + b) = wrap_int intSize (a + b).
Proof.
  unfold wrap_int.
  replace ((a + 2 ^ (intSize - 1)) mod 2 ^ intSize - 2 ^ (intSize - 1) + b
           + 2 ^ (intSize - 1))%Z
    with ((a + 2 ^ (intSize - 1)) mod 2 ^ intSize + b)%Z by ring.
  rewrite Zplus_mod_idemp_l. do 2 f_equal. ring.
Qed.

Lemma fold_add_shift (l : list Z) (a : Z) :
  fold_left Z.add l a = (a + fold_left Z.add l 0)%Z.
Proof.
  revert a. induction l as [|n l IH]; intros a; simpl.
  - ring.
  - rewrite IH, (IH n). ring.
Qed.

Lemma drive_all (ns : list Z) (c : Car.t UUID W) :
  let c' := fold_left (Car.drive intSize) ns c in
  Car.ID c' = Car.ID c
  /\ Car.Make c' = Car.Make c
  /\ match ns with
     | [] => c' = c
     | _ :: _ =>
         Car.Kms c' = wrap_int intSize (Car.Kms c + fold_left Z.add ns 0)
         /\ Car.delta_Kms (Car.Delta c') = Some {| Value := Car.Kms c' |}
     end.
Proof.
  revert c. induction ns as [|n ns IH]; intros c; simpl.
  - auto.
  - specialize (IH (Car.drive intSize c n)). simpl in IH.
    destruct IH as (Hid & Hmk & Hrest).
    split; [exact Hid|]. split; [exact Hmk|].
    destruct ns as [|n' ns].
    + rewrite Hrest. simpl. split; reflexivity.
    + destruct Hrest as [Hk Hd]. split; [|exact Hd].
      rewrite Hk. unfold Car.Kms at 1, Scalar.Get. simpl.
      rewrite wrap_int_add. f_equal.
      rewrite (fold_add_shift ns (n + n')), (fold_add_shift ns n').
      unfold Car.Kms, Scalar.Get. ring.
Qed.

(** X17. A car hydrated with [kms] and driven [ns] keeps its id and make;
    its odometer reads [kms] plus the sum of [ns], wrapped to Go's [int].
    Its delta reports the odometer after any drive, a drive of 0 included,
    and nothing before the first drive. *)
Theorem drive_accumulates (id : UUID) (mk : string) (kms : Z) (ns : list Z) :
  let c : Car.t UUID W := fold_left (Car.drive intSize) ns (HydrateCar id mk kms) in
  Car.ID c = id
  /\ Car.Make c = mk
  /\ match ns with
     | [] => Car.Kms c = kms /\ Car.delta_Kms (Car.Delta c) = None
     | _ :: _ =>
         Car.Kms c = wrap_int intSize (kms + fold_left Z.add ns 0)
         /\ Car.delta_Kms (Car.Delta c) = Some {| Value := Car.Kms c |}
     end.
Proof.
  intros c. destruct (drive_all ns (HydrateCar id mk kms)) as (Hid & Hmk & Hrest).
  fold c in Hid, Hmk, Hrest. split; [exact Hid|]. split; [exact Hmk|].
  destruct ns as [|n ns].
  - rewrite Hrest. split; reflexivity.
  - exact Hrest.
Qed.

End CarFacts.

(* ================================================================== *)
(** * The further properties at the entities of the tests               *)
(* ================================================================== *)

Lemma set_scalar_never_fetches_witness :
  exists v',
    scalar_run [ScalarGet; ScalarSet 2; ScalarGet]
      (Scalar.embedded (New (W := nat) 1)) world0
    = Ret (v', world0).
Proof.
  destruct (set_scalar_never_fetches (Scalar.embedded (New (W := nat) 1)) eq_refl
              [ScalarGet; ScalarSet 2; ScalarGet] world0) as [v' (H & _)].
  exists v'. exact H.
Defined.

Lemma first_Get_caches_witness :
  exists v',
    LazyScalar.Get (NewLazy (Some loading_scalar)) world0
    = Ret ((v', ("loaded value"%string, None)), {| env := 1; calls := [tt] |})
    /\ LazyScalar.Change v' = None
    /\ forall w2, LazyScalar.Get v' w2 = Ret ((v', ("loaded value"%string, None)), w2).
Proof.
  pose proof (first_Get_caches (NewLazy (Some loading_scalar)) world0
                (f := loading_scalar) (x := "loaded value"%string) (env1 := 1)) as H.
  destruct (H eq_refl eq_refl eq_refl) as [v' (H1 & _ & H3 & H4)].
  exists v'. split; [exact H1|]. split; [exact (H3 eq_refl) | exact H4].
Defined.

Lemma last_Set_wins_witness :
  LazyScalar.Change
    {| LazyScalar.isSet := true; LazyScalar.value := "new value"%string;
       LazyScalar.fn := Some loading_scalar; LazyScalar.isDirty := true |}
  = Some {| Value := "new value"%string |}.
Proof.
  pose proof (last_Set_wins
                [ScalarGet; ScalarSet "new value"%string; ScalarGet]
                (NewLazy (Some loading_scalar)) world0
                (v' := {| LazyScalar.isSet := true;
                          LazyScalar.value := "new value"%string;
                          LazyScalar.fn := Some loading_scalar;
                          LazyScalar.isDirty := true |})
                (w' := {| env := 1; calls := [tt] |})) as H.
  specialize (H eq_refl). cbv [last_set fold_left] in H.
  destruct H as (_ & H & _). exact H.
Defined.

Lemma loaded_collection_never_fetches_witness :
  exists s',
    LazySlice.run
      [LazySlice.CallGet "7"%string; LazySlice.CallGetAll;
       LazySlice.CallRemove "1"%string; LazySlice.CallSet e3]
      eager12 world0
    = Ret (s', world0).
Proof.
  destruct (loaded_collection_never_fetches eager12 eq_refl
              [LazySlice.CallGet "7"%string; LazySlice.CallGetAll;
               LazySlice.CallRemove "1"%string; LazySlice.CallSet e3] world0)
    as [s' (H & _)].
  exists s'. exact H.
Defined.

Lemma IsReset_iff_reset_call_witness :
  exists s' w',
    LazySlice.run [LazySlice.CallSet e3; LazySlice.CallClear; LazySlice.CallSet e1]
      lazy12 world0 = Ret (s', w')
    /\ LazySlice.IsReset s' = true.
Proof.
  pose proof (fun s' w' =>
                IsReset_iff_reset_call
                  [LazySlice.CallSet e3; LazySlice.CallClear; LazySlice.CallSet e1]
                  lazy12 world0 (s' := s') (w' := w')) as H.
  eexists _, _. split; [reflexivity|].
  match goal with
  | |- LazySlice.IsReset ?s = true => exact (proj1 (H s _ eq_refl))
  end.
Defined.

Lemma reads_see_local_writes_witness :
  LazySlice.Get (LazySlice.Set_ lazy12 e3) "3"%string world0
  = Ret ((LazySlice.Set_ lazy12 e3, (e3, None)), world0)
  /\ LazySlice.Get (fst (LazySlice.Remove lazy12 "1"%string)) "1"%string world0
     = Ret ((fst (LazySlice.Remove lazy12 "1"%string), (zero, Some ErrNotFound)), world0).
Proof.
  destruct (reads_see_local_writes lazy12 world0) as (H1 & H2 & _).
  split; [exact (H1 e3)|].
  apply (H2 "1"%string). simpl. discriminate.
Defined.

Lemma Set_last_write_wins_witness :
  LazySlice.Set_ (LazySlice.Set_ lazy12 e2) e2_new = LazySlice.Set_ lazy12 e2_new.
Proof. exact (Set_last_write_wins lazy12 e2 e2_new eq_refl). Defined.

Lemma Remove_twice_witness :
  LazySlice.Remove (fst (LazySlice.Remove eager12 "1"%string)) "1"%string
  = (fst (LazySlice.Remove eager12 "1"%string), true)
  /\ snd (LazySlice.Remove
            (fst (LazySlice.Remove (LazySlice.Set_ lazy12 e3) "3"%string)) "3"%string)
     = false.
Proof.
  split.
  - apply (proj1 (Remove_twice eager12 "1"%string)). simpl. discriminate.
  - pose proof (proj2 (Remove_twice (LazySlice.Set_ lazy12 e3) "3"%string)) as H.
    destruct (H eq_refl) as (_ & _ & H3 & _). exact H3.
Defined.

Lemma Remove_then_Set_witness :
  linkedmap.Get "2"%string
    (LazySlice.fetched (LazySlice.Set_ (fst (LazySlice.Remove eager12 "2"%string)) e2_new))
  = Some {| value := e2_new; status := Modified |}
  /\ linkedmap.Keys
       (LazySlice.fetched (LazySlice.Set_ (fst (LazySlice.Remove eager12 "1"%string)) e1))
     = ["1"%string; "2"%string].
Proof.
  split.
  - assert (H : option_map (@status testEntity)
                  (linkedmap.Get (ID e2_new) (LazySlice.fetched eager12)) <> Some Added)
      by (simpl; discriminate).
    exact (proj1 (proj1 (Remove_then_Set eager12 e2_new) H)).
  - assert (H : option_map (@status testEntity)
                  (linkedmap.Get (ID e1) (LazySlice.fetched eager12)) <> Some Added)
      by (simpl; discriminate).
    apply (proj2 (proj1 (Remove_then_Set eager12 e1) H)). simpl. discriminate.
Defined.

Lemma lazy_Get_caches_and_preserves_witness :
  exists s1,
    LazySlice.Get (LazySlice.Set_ lazy12 e3) "1"%string world0
    = Ret ((s1, (e1, None)), {| env := 1; calls := ["1"%string] |})
    /\ Collect (Items (LazySlice.Changes s1))
       = Collect (Items (LazySlice.Changes (LazySlice.Set_ lazy12 e3)))
    /\ forall w2, LazySlice.Get s1 "1"%string w2 = Ret ((s1, (e1, None)), w2).
Proof.
  pose proof (lazy_Get_caches_and_preserves (LazySlice.Set_ lazy12 e3)
                (id := "1"%string) world0
                (f := fetcher [e1; e2]) (v0 := e1) (rest := []) (env1 := 1)) as H.
  destruct (H eq_refl eq_refl eq_refl eq_refl eq_refl)
    as [s1 (H1 & _ & _ & H4 & _ & H6)].
  exists s1. split; [exact H1|]. split; [exact H4 | exact H6].
Defined.

Lemma wf_removed1_added3 :
  linkedmap.wf
    (LazySlice.fetched (LazySlice.Set_ (fst (LazySlice.Remove lazy12 "1"%string)) e3)).
Proof.
  constructor; [|constructor; [|constructor]]; simpl.
  - intros [H|[]]. discriminate H.
  - intros [].
Defined.

Lemma GetAll_keeps_order_and_appends_witness :
  exists s' seq,
    LazySlice.GetAll (LazySlice.Set_ (fst (LazySlice.Remove lazy12 "1"%string)) e3) world0
    = Ret ((s', (Some seq, None)), {| env := 1; calls := [EmptyString] |})
    /\ Collect seq = [e3; e2].
Proof.
  pose proof (GetAll_keeps_order_and_appends
                (LazySlice.Set_ (fst (LazySlice.Remove lazy12 "1"%string)) e3) world0
                (f := fetcher [e1; e2]) (values := [e1; e2]) (env1 := 1)) as H.
  destruct (H wf_removed1_added3 eq_refl eq_refl eq_refl) as [s' [seq (H1 & _ & H3)]].
  exists s', seq. split; [exact H1 | exact H3].
Defined.

Lemma GetAll_preserves_pending_changes_witness :
  exists s' r,
    LazySlice.GetAll (LazySlice.Set_ (fst (LazySlice.Remove lazy12 "1"%string)) e3) world0
    = Ret ((s', r), {| env := 1; calls := [EmptyString] |})
    /\ Collect (Items (LazySlice.Changes s'))
       = [ {| change_ID := "1"%string; change_Value := zero; change_Status := Removed |};
           {| change_ID := "3"%string; change_Value := e3; change_Status := Added |} ].
Proof.
  pose proof (GetAll_preserves_pending_changes
                (LazySlice.Set_ (fst (LazySlice.Remove lazy12 "1"%string)) e3) world0
                (f := fetcher [e1; e2]) (values := [e1; e2]) (env1 := 1)) as H.
  destruct (H wf_removed1_added3 eq_refl eq_refl eq_refl) as [s' [r (H1 & H2)]].
  exists s', r. split; [exact H1 | exact H2].
Defined.

Lemma fresh_collection_loads_baseline_witness :
  exists s' seq,
    LazySlice.GetAll lazy12 world0
    = Ret ((s', (Some seq, None)), {| env := 1; calls := [EmptyString] |})
    /\ Collect seq = [e1; e2]
    /\ Collect (Items (LazySlice.Changes s')) = [].
Proof.
  pose proof (fresh_collection_loads_baseline world0 (fetcher [e1; e2])
                (values := [e1; e2]) (env1 := 1)) as H.
  destruct (H eq_refl) as [s' [seq (H1 & _ & H3 & H4 & _)]].
  exists s', seq. split; [exact H1|]. split; [exact (H3 NoDup_ids_e1_e2) | exact H4].
Defined.

Lemma tombstones_carry_zero_value_witness :
  exists s' w',
    LazySlice.run [LazySlice.CallRemove "1"%string; LazySlice.CallGetAll;
                   LazySlice.CallSet e3] lazy12 world0 = Ret (s', w')
    /\ forall c, In c (Collect (Items (LazySlice.Changes s'))) ->
                 change_Status c = Removed \/ change_Status c = Absent ->
                 change_Value c = zero.
Proof.
  pose proof (fun s' w' =>
                tombstones_carry_zero_value
                  [LazySlice.CallRemove "1"%string; LazySlice.CallGetAll;
                   LazySlice.CallSet e3]
                  (s0 := lazy12) world0 (s' := s') (w' := w')
                  (or_introl (ex_intro _ (Some (fetcher [e1; e2])) eq_refl))) as H.
  eexists _, _. split; [reflexivity|].
  match goal with
  | |- forall c, In c (Collect (Items (LazySlice.Changes ?s))) -> _ =>
      exact (H s _ eq_refl)
  end.
Defined.

Lemma Changes_reports_each_identity_once_witness :
  exists s' w',
    LazySlice.run [LazySlice.CallRemove "1"%string; LazySlice.CallGetAll;
                   LazySlice.CallSet e3; LazySlice.CallRemove "1"%string]
      lazy12 world0 = Ret (s', w')
    /\ NoDup (map (@change_ID string testEntity) (Collect (Items (LazySlice.Changes s')))).
Proof.
  pose proof (fun s' w' =>
                Changes_reports_each_identity_once
                  [LazySlice.CallRemove "1"%string; LazySlice.CallGetAll;
                   LazySlice.CallSet e3; LazySlice.CallRemove "1"%string]
                  (s0 := lazy12) world0 (s' := s') (w' := w')
                  (or_introl (ex_intro _ (Some (fetcher [e1; e2])) eq_refl))) as H.
  eexists _, _. split; [reflexivity|].
  match goal with
  | |- NoDup (map _ (Collect (Items (LazySlice.Changes ?s)))) =>
      exact (H s _ eq_refl)
  end.
Defined.

Lemma NewSlice_is_clean_witness :
  Collect (Slice.GetAll (W := nat) (NewSlice [e1; e2])) = [e1; e2]
  /\ Collect (Items (LazySlice.Changes eager12)) = []
  /\ Slice.Get (W := nat) (NewSlice [e1; e2]) "7"%string = zero.
Proof.
  destruct (NewSlice_is_clean (W := nat) [e1; e2]) as (_ & _ & H3 & _ & H5 & H6).
  split; [exact (proj1 (H6 NoDup_ids_e1_e2))|]. split; [exact H3|].
  apply H5. simpl. intros [H|[H|[]]]; discriminate H.
Defined.

Lemma drive_accumulates_witness :
  Car.Kms (Car.drive 64 (Car.drive 64 (HydrateCar (W := nat) 7 "Toyota"%string 2000%Z)
                                   30%Z) 0%Z)
  = 2030%Z.
Proof.
  exact (proj1 (proj2 (proj2 (drive_accumulates (W := nat) 64 7 "Toyota"%string
                                2000%Z [30%Z; 0%Z])))).
Defined.

Lemma Get_records_under_the_fetched_identity_witness :
  exists s1,
    LazySlice.Get
      (fst (LazySlice.Remove (NewLazySlice (Some (fetch_ignoring_id [e1; e2]))) "1"%string))
      "2"%string world0
    = Ret ((s1, (e1, None)), {| env := 1; calls := ["2"%string] |})
    /\ linkedmap.Get "2"%string (LazySlice.fetched s1) = None
    /\ linkedmap.Get "1"%string (LazySlice.fetched s1)
       = Some {| value := e1; status := Unchanged |}.
Proof.
  pose proof (Get_records_under_the_fetched_identity
                (fst (LazySlice.Remove (NewLazySlice (Some (fetch_ignoring_id [e1; e2])))
                        "1"%string))
                (id := "2"%string) world0
                (f := fetch_ignoring_id [e1; e2]) (v0 := e1) (rest := [e2]) (env1 := 1))
    as H.
  assert (N : ID e1 <> "2"%string) by (simpl; discriminate).
  destruct (H eq_refl eq_refl eq_refl eq_refl N) as [s1 (H1 & H2 & H3 & _)].
  exists s1. split; [exact H1|]. split; [exact H2 | exact H3].
Defined.
